(** * The orchestration core: Factory, Project and default-provider selection

    A shallow embedding of [internal/core/factory.go] and
    [internal/core/project.go].

    Conventions of the embedding.
    - Go strings are byte strings; they are [string] here.
    - A Go pointer to a [Target] or to a [Basis] is an address ([addr]) into
      an explicit heap, so that "the same in-memory instance" is equality of
      addresses.
    - A Go [(value, error)] pair of which the caller reads the value only
      when the error is nil is a [result].
    - Pure code either returns or panics (nil dereference, failed type
      assertion): [exec].  Stateful code runs in the monad [M], in which a
      call returns, panics, or blocks on a mutex.
    - The Persistence Client, the plugin manager, the data directories and
      the parts of the package that are in other files are collaborators:
      their answers are parameters, and what is asked of them is logged.
    - The order in which a range statement visits a map is a parameter too.
    - Logging has no effect on the values computed and is left out. *)

From stdpp Require Import base option list gmap strings.
From Stdlib Require Import Ascii String DecimalString.

Local Open Scope string_scope.
Local Open Scope list_scope.

(** ** Errors and go-multierror *)

#[warnings="-register-all"]
Inductive error : Type :=
| ErrorString (msg : string)          (* errors.New / a remote status *)
| MultiError (errs : list error).     (* *multierror.Error *)

(** The errors an error contributes when it is appended to a multierror:
    a [*multierror.Error] is flattened one level, anything else is kept. *)
Definition flatten (e : error) : list error :=
  match e with
  | MultiError es => es
  | ErrorString _ => [e]
  end.

(** [multierror.Append(err, e)] with [err] possibly nil and [e] non-nil. *)
Definition multierror_Append (err : option error) (e : error) : error :=
  match err with
  | Some (MultiError es) => MultiError (es ++ flatten e)
  | Some e0 => MultiError (e0 :: flatten e)
  | None => MultiError (flatten e)
  end.

Inductive result (A : Type) : Type :=
| Ok (a : A)
| Err (e : error).
Arguments Ok {A} a.
Arguments Err {A} e.

Inductive exec (A : Type) : Type :=
| Done (a : A)
| Panic.
Arguments Done {A} a.
Arguments Panic {A}.

(** A [for ... range] loop whose body may return from the enclosing function:
    the body answers [Some r] to return [r] and [None] to go on. *)
Fixpoint for_range {A R : Type} (l : list A) (body : A → option R) : option R :=
  match l with
  | [] => None
  | x :: l' =>
      match body x with
      | Some r => Some r
      | None => for_range l' body
      end
  end.

(** ** Go's [strings] package, as far as [DefaultProvider] uses it *)

Module strings.

(** [strings.Split(s, sep)] for a one-byte separator. *)
Fixpoint Split (s : string) (sep : ascii) : list string :=
  match s with
  | EmptyString => [""]
  | String c r =>
      if decide (c = sep) then "" :: Split r sep
      else match Split r sep with
           | h :: t => String c h :: t
           | [] => [String c ""]
           end
  end.

(** The UTF-8 encodings of the runes for which [unicode.IsSpace] holds. *)
Definition byte (n : nat) : ascii := ascii_of_nat n.

Definition space_runes : list (list ascii) :=
  map (λ n, [byte n]) [9; 10; 11; 12; 13; 32]
  ++ [[byte 194; byte 133]; [byte 194; byte 160]; [byte 225; byte 154; byte 128]]
  ++ map (λ n, [byte 226; byte 128; byte n])
       [128; 129; 130; 131; 132; 133; 134; 135; 136; 137; 138; 168; 169; 175]
  ++ [[byte 226; byte 129; byte 159]; [byte 227; byte 128; byte 128]].

Fixpoint strip_prefix (p l : list ascii) : option (list ascii) :=
  match p, l with
  | [], _ => Some l
  | a :: p', b :: l' => if decide (a = b) then strip_prefix p' l' else None
  | _ :: _, [] => None
  end.

(** Drops one leading space rune, if there is one. *)
Definition drop_space (runes : list (list ascii)) (l : list ascii)
  : option (list ascii) :=
  for_range runes (λ r, strip_prefix r l).

Fixpoint trim_left (fuel : nat) (runes : list (list ascii)) (l : list ascii)
  : list ascii :=
  match fuel with
  | O => l
  | S n =>
      match drop_space runes l with
      | Some l' => trim_left n runes l'
      | None => l
      end
  end.

(** [strings.TrimSpace]: leading and trailing white space removed. *)
Definition TrimSpace (s : string) : string :=
  let l := list_ascii_of_string s in
  let l1 := trim_left (List.length l) space_runes l in
  let l2 := trim_left (List.length l1) (map (@rev ascii) space_runes) (rev l1) in
  string_of_list_ascii (rev l2).

End strings.

(** ** Protobuf messages

    One module per message, with the fields the code reads.  A field that
    holds a pointer to a message which the code tests against nil, or reads
    through a nil-safe getter, is an [option]. *)

Module Vagrantfile_Provider.
Record t := { Type_ : string }.
End Vagrantfile_Provider.

Module Vagrantfile_ConfigVM.
Record t := { Providers : list (option Vagrantfile_Provider.t) }.
End Vagrantfile_ConfigVM.

Module Vagrantfile_MachineConfig.
Record t := { Name : string; ConfigVm : option Vagrantfile_ConfigVM.t }.
End Vagrantfile_MachineConfig.

Module Vagrantfile.
Record t := {
  Path : string;
  MachineConfigs : list (option Vagrantfile_MachineConfig.t) }.
End Vagrantfile.

Module Ref_Basis.
Record t := { ResourceId : string; Name : string }.
End Ref_Basis.

Module Ref_Project.
Record t := { ResourceId : string; Name : string; Basis : Ref_Basis.t }.
End Ref_Project.

Module Ref_Target.
Record t := {
  ResourceId : string;
  Name : string;
  Project : option Ref_Project.t }.
End Ref_Target.

(** [vagrant_server.Project], the record a [Project] holds in [p.project]. *)
Module server_Project.
Record t := {
  ResourceId : string;
  Name : string;
  Path : string;
  Basis : Ref_Basis.t;
  Targets : list Ref_Target.t;
  Configuration : option Vagrantfile.t }.
End server_Project.

(** The generated getters are nil-safe: on a nil receiver they answer the
    zero value of the field. *)
Definition GetConfiguration (p : option server_Project.t) : option Vagrantfile.t :=
  p ≫= server_Project.Configuration.

Definition GetMachineConfigs (c : option Vagrantfile.t)
  : list (option Vagrantfile_MachineConfig.t) :=
  from_option Vagrantfile.MachineConfigs [] c.

Definition GetName (m : option Vagrantfile_MachineConfig.t) : string :=
  from_option Vagrantfile_MachineConfig.Name "" m.

Definition GetConfigVm (m : option Vagrantfile_MachineConfig.t)
  : option Vagrantfile_ConfigVM.t :=
  m ≫= Vagrantfile_MachineConfig.ConfigVm.

Definition GetProviders (c : option Vagrantfile_ConfigVM.t)
  : list (option Vagrantfile_Provider.t) :=
  from_option Vagrantfile_ConfigVM.Providers [] c.

Definition GetType (p : option Vagrantfile_Provider.t) : string :=
  from_option Vagrantfile_Provider.Type_ "" p.

(** ** Default-provider selection ([Project.DefaultProvider]) *)

Module DefaultProviderOptions.
Record t := {
  Exclude : list string;
  ForceDefault : bool;
  MachineName : string;
  CheckUsable : bool }.

(** Modelled from the spec: [IsExcluded] of the plugin SDK, which is not
    part of these sources; the options carry "a set of excluded provider
    names" and a provider is excluded when its name is one of them. *)
Definition IsExcluded (o : t) (name : string) : bool :=
  bool_decide (name ∈ Exclude o).
End DefaultProviderOptions.

(** The plugin manager of the basis, a collaborator: what [ListPlugins]
    and [GetPlugin] answer, and what a provider's [Usable] answers. *)
Module plugin.
Record Plugin := { Name : string; Type_ : string }.

Inductive Instance_ : Type :=
| Provider (Usable : result bool)   (* implements core.Provider *)
| Other.                            (* any other plugin value *)

Record Manager := {
  ListPlugins : string → result (list Plugin);
  GetPlugin : string → string → result Instance_ }.
End plugin.

Section DefaultProvider.
(** [os.Getenv]: the value of a variable, empty when it is not set. *)
Variable Getenv : string → string.
Variable plugins : plugin.Manager.           (* p.basis.plugins *)
Variable project : option server_Project.t.  (* p.project *)
Variable opts : DefaultProviderOptions.t.

Import DefaultProviderOptions.

(** Lines 131-141. *)
Definition configProviders : list string :=
  foldl
    (λ configProviders m,
       if bool_decide (MachineName opts ≠ "")
          && bool_decide (MachineName opts ≠ GetName m)
       then configProviders
       else foldl (λ configProviders p, configProviders ++ [GetType p])
              configProviders (GetProviders (GetConfigVm m)))
    [] (GetMachineConfigs (GetConfiguration project)).

(** Lines 148-175: the loop over the listed plugins, [usableProviders]
    being the list built so far. *)
Fixpoint usable_loop (pluginProviders : list plugin.Plugin)
    (usableProviders : list string) : exec (result (list string)) :=
  match pluginProviders with
  | [] => Done (Ok usableProviders)
  | pp :: rest =>
      if IsExcluded opts (plugin.Name pp) then usable_loop rest usableProviders
      else if CheckUsable opts then
        match plugin.GetPlugin plugins (plugin.Name pp) (plugin.Type_ pp) with
        | Err err => Done (Err err)
        | Ok plugin.Other => Panic        (* plug.Plugin.(core.Provider) *)
        | Ok (plugin.Provider (Err err)) => Done (Err err)
        | Ok (plugin.Provider (Ok usable)) =>
            if usable
            then usable_loop rest (usableProviders ++ [plugin.Name pp])
            else usable_loop rest usableProviders
        end
      else usable_loop rest (usableProviders ++ [plugin.Name pp])
  end.

(** Lines 143-175. *)
Definition usableProviders : exec (result (list string)) :=
  match plugin.ListPlugins plugins "provider" with
  | Err err => Done (Err err)
  | Ok pluginProviders => usable_loop pluginProviders []
  end.

(** Lines 194-201: the slice is compacted in place; iteration [i] reads
    element [i] of the array as it then is and may write element [k]. *)
Fixpoint compact (n i k : nat) (arr : list string) : list string * nat :=
  match n with
  | O => (arr, k)
  | S n' =>
      match arr !! i with
      | None => (arr, k)
      | Some pp =>
          let spp := strings.TrimSpace pp in
          if decide (spp ≠ "")
          then compact n' (S i) (S k) (<[k:=spp]> arr)
          else compact n' (S i) k arr
      end
  end.

(** Lines 193-202. *)
Definition preferredProviders : list string :=
  let arr := strings.Split (Getenv "VAGRANT_PREFERRED_PROVIDERS") "," in
  let '(arr', k) := compact (List.length arr) 0 0 arr in
  take k arr'.

(** Lines 182-256, once the usable list is there. *)
Definition select (defaultProvider : string)
    (configProviders usableProviders preferredProviders : list string)
  : result string :=
  let found (r : option string) (otherwise : result string) :=
    match r with Some x => Ok x | None => otherwise end in
  found (for_range usableProviders (λ u,
           if decide (u = defaultProvider) then Some u else None)) $
  found (for_range configProviders (λ cp,
           for_range usableProviders (λ up,
             if decide (cp = up)
             then for_range preferredProviders (λ pp,
                    if decide (cp = pp) then Some pp else None)
             else None))) $
  found (for_range configProviders (λ cp,
           for_range usableProviders (λ up,
             if decide (cp = up) then Some cp else None))) $
  found (for_range preferredProviders (λ pp,
           for_range usableProviders (λ up,
             if decide (pp = up) then Some pp else None))) $
  match usableProviders with
  | u :: _ => Ok u
  | [] => Err (ErrorString "No default provider.")
  end.

(** Lines 104-257. *)
Definition DefaultProvider : exec (result string) :=
  let defaultProvider := Getenv "VAGRANT_DEFAULT_PROVIDER" in
  if bool_decide (defaultProvider ≠ "") && ForceDefault opts
  then Done (Ok defaultProvider)
  else
    match usableProviders with
    | Panic => Panic
    | Done (Err err) => Done (Err err)
    | Done (Ok usable) =>
        Done (select defaultProvider configProviders usable preferredProviders)
    end.

(** The selection in the words of the specification: ordered tiers over
    the three lists. *)
Definition tiers (defaultProvider : string)
    (configured usable preferred : list string) : result string :=
  if bool_decide (defaultProvider ∈ usable) then Ok defaultProvider
  else match List.find (λ cp, bool_decide (cp ∈ usable)
                              && bool_decide (cp ∈ preferred)) configured with
  | Some cp => Ok cp
  | None =>
  match List.find (λ cp, bool_decide (cp ∈ usable)) configured with
  | Some cp => Ok cp
  | None =>
  match List.find (λ pp, bool_decide (pp ∈ usable)) preferred with
  | Some pp => Ok pp
  | None =>
  match usable with
  | u :: _ => Ok u
  | [] => Err (ErrorString "No default provider.")
  end end end end.

(** The preferred list in the words of the specification: split at the
    commas, trim, drop the empty entries, keep the order. *)
Definition preferred_list : list string :=
  List.filter (λ s, bool_decide (s ≠ ""))
    (map strings.TrimSpace
       (strings.Split (Getenv "VAGRANT_PREFERRED_PROVIDERS") ",")).

End DefaultProvider.

(** ** A state monad for the stateful code

    [M S A]: a computation over a state [S] that returns an [A], panics, or
    blocks for ever on a mutex that is held; the state reached is kept in
    every case, as the effects made before a panic are real. *)

Inductive outcome (A : Type) : Type :=
| Returns (a : A)
| Panics
| Blocks.
Arguments Returns {A} a.
Arguments Panics {A}.
Arguments Blocks {A}.

Definition M (S A : Type) : Type := S → S * outcome A.

#[export] Instance M_ret {S} : MRet (M S) := λ A a s, (s, Returns a).

#[export] Instance M_bind {S} : MBind (M S) := λ A B f m s,
  match m s with
  | (s', Returns a) => f a s'
  | (s', Panics) => (s', Panics)
  | (s', Blocks) => (s', Blocks)
  end.

Definition panic {S A} : M S A := λ s, (s, Panics).
Definition block {S A} : M S A := λ s, (s, Blocks).
Definition gets {S A} (f : S → A) : M S A := λ s, (s, Returns (f s)).
Definition modify {S} (f : S → S) : M S unit := λ s, (f s, Returns tt).

(** Dereferencing a pointer that may be nil. *)
Definition deref {S A} (o : option A) : M S A :=
  match o with
  | Some a => mret a
  | None => panic
  end.

(** ** Targets and the state of a Project *)

Definition addr := nat.

(** [vagrant_server.Target], as far as [project.go] reads it. *)
Module server_Target.
Record t := {
  ResourceId : string;
  Name : string;
  Provider : string }.

Definition with_Provider (provider : string) (r : t) : t :=
  {| ResourceId := ResourceId r; Name := Name r; Provider := provider |}.
End server_Target.

(** A cleanup action of a Target: the save that [LoadTarget] attaches, or
    one registered by somebody else. *)
Inductive TargetCloser : Type :=
| SaveOnClose
| OtherTargetCloser (id : nat).

(** The [Target] struct: the record, the data directory and the closers. *)
Module Target.
Record t := {
  target : option server_Target.t;
  dir : option string;
  closers : list TargetCloser }.

Definition with_target (r : server_Target.t) (x : t) : t :=
  {| target := Some r; dir := dir x; closers := closers x |}.
Definition with_dir (d : string) (x : t) : t :=
  {| target := target x; dir := Some d; closers := closers x |}.

(** [t.Closer(c)]. *)
Definition Closer (c : TargetCloser) (x : t) : t :=
  {| target := target x; dir := dir x; closers := closers x ++ [c] |}.
End Target.

(** A [TargetOption] works on the shell under construction and may fail; it
    may have changed the shell even when it fails. *)
Definition TargetOption : Type := Target.t → Target.t * option error.

(** A cleanup action registered on the Project with [Closer]: which one it
    is, and what it answers when it is run. *)
Record ProjectCloser := { closer_id : nat; closer_err : option error }.

Module UpsertTargetRequest.
Record t := {
  Name : string;
  Project : Ref_Project.t;
  Configuration : Vagrantfile_MachineConfig.t }.
End UpsertTargetRequest.

(** What the Project does to the outside, in the order it does it. *)
Inductive Event : Type :=
| EvUpsertTarget (req : UpsertTargetRequest.t)
| EvFindProject (resource_id : string)
| EvUpsertProject (p : option server_Project.t)
| EvDataDir (name : string)
| EvTargetClose (t : addr)
| EvCloser (id : nat).

(** The collaborators of a Project and the parts of the package that are not
    in these sources.  An answer may depend on everything done so far. *)
Record Collaborators := {
  (* the Persistence Client *)
  UpsertTarget : list Event → UpsertTargetRequest.t → option error;
  FindProject : list Event → string → result (option server_Project.t);
  UpsertProject : list Event → option server_Project.t
                  → option (option server_Project.t) * option error;
  (* p.dir.Target(name) of the datadir package *)
  dir_Target : list Event → string → result string;
  (* Target.State().IsActive() and Target.Close() *)
  Target_State : Target.t → result bool;
  Target_Close : addr → Target.t → option error;
  (* the options Project.Target passes to LoadTarget *)
  WithTargetRef : Ref_Target.t → TargetOption;
  WithProvider : string → TargetOption;
  (* the order in which a range statement visits the target map *)
  range_targets : gmap string addr → list (string * addr) }.

Record Store := {
  project : option server_Project.t;   (* p.project *)
  targets : gmap string addr;          (* p.targets *)
  closers : list ProjectCloser;        (* p.closers *)
  basis_projects : gmap string addr;   (* p.basis.projects *)
  heap : gmap addr Target.t;           (* the Target objects *)
  log : list Event }.

Definition set_project (v : option server_Project.t) (s : Store) : Store :=
  {| project := v; targets := targets s; closers := closers s;
     basis_projects := basis_projects s; heap := heap s; log := log s |}.
Definition set_targets (v : gmap string addr) (s : Store) : Store :=
  {| project := project s; targets := v; closers := closers s;
     basis_projects := basis_projects s; heap := heap s; log := log s |}.
Definition set_basis_projects (v : gmap string addr) (s : Store) : Store :=
  {| project := project s; targets := targets s; closers := closers s;
     basis_projects := v; heap := heap s; log := log s |}.
Definition set_heap (v : gmap addr Target.t) (s : Store) : Store :=
  {| project := project s; targets := targets s; closers := closers s;
     basis_projects := basis_projects s; heap := v; log := log s |}.
Definition emit (e : Event) : M Store unit :=
  modify (λ s,
    {| project := project s; targets := targets s; closers := closers s;
       basis_projects := basis_projects s; heap := heap s;
       log := log s ++ [e] |}).

Section Project.
Variable env : Collaborators.

(** [p.Name()], lines 390-392. *)
Definition Name : M Store string :=
  p ← gets project; r ← deref p; mret (server_Project.Name r).

(** [p.Ref()], lines 456-462. *)
Definition Ref : M Store Ref_Project.t :=
  p ← gets project; r ← deref p;
  mret {| Ref_Project.ResourceId := server_Project.ResourceId r;
          Ref_Project.Name := server_Project.Name r;
          Ref_Project.Basis := server_Project.Basis r |}.

(** [TargetIds], lines 332-338. *)
Definition TargetIds : M Store (result (list string)) :=
  p ← gets project; r ← deref p;
  mret (Ok (foldl (λ ids t, ids ++ [Ref_Target.ResourceId t]) []
              (server_Project.Targets r))).

(** [TargetNames], lines 346-352. *)
Definition TargetNames : M Store (result (list string)) :=
  p ← gets project; r ← deref p;
  mret (Ok (foldl (λ names t, names ++ [Ref_Target.Name t]) []
              (server_Project.Targets r))).

(** Lines 415-419 of [LoadTarget]: every option is applied, the errors
    are appended. *)
Fixpoint apply_options (topts : list TargetOption) (t : Target.t)
    (err : option error) : Target.t * option error :=
  match topts with
  | [] => (t, err)
  | opt :: rest =>
      let '(t', oerr) := opt t in
      apply_options rest t'
        (match oerr with
         | Some e => Some (multierror_Append err e)
         | None => err
         end)
  end.

(** The shell of lines 406-412. *)
Definition new_shell : Target.t :=
  {| Target.target := None; Target.dir := None; Target.closers := [] |}.

(** Lines 425-429: the data directory of the shell. *)
Definition ensure_dir (t : Target.t) : M Store (result Target.t) :=
  match Target.dir t with
  | Some _ => mret (Ok t)
  | None =>
      r ← deref (Target.target t);
      l ← gets log;
      emit (EvDataDir (server_Target.Name r));;
      match dir_Target env l (server_Target.Name r) with
      | Err e => mret (Err e)
      | Ok d => mret (Ok (Target.with_dir d t))
      end
  end.

(** [LoadTarget], lines 401-448.  The answer is the address of a Target:
    the shell gets one only when it is registered. *)
Definition LoadTarget (topts : list TargetOption) : M Store (result addr) :=
  let '(t, err) := apply_options topts new_shell None in
  match err with
  | Some e => mret (Err e)
  | None =>
      d ← ensure_dir t;
      match d with
      | Err e => mret (Err e)
      | Ok t =>
          r ← deref (Target.target t);
          tg ← gets targets;
          match tg !! server_Target.ResourceId r with
          | Some target => mret (Ok target)
          | None =>
              h ← gets heap;
              let a := fresh (dom h) in
              modify (set_heap (<[a := t]> h));;
              modify (set_targets (<[server_Target.ResourceId r := a]> tg));;
              h ← gets heap;
              modify (set_heap (alter (Target.Closer SaveOnClose) a h));;
              mret (Ok a)
          end
      end
  end.

(** The loop of lines 297-317 of [Target] over the entries still to visit;
    [None] when the loop ends without a return. *)
Fixpoint Target_scan (entries : list (string * addr))
    (nameOrId provider : string) : M Store (option (result addr)) :=
  match entries with
  | [] => mret None
  | (_, a) :: rest =>
      h ← gets heap;
      t ← deref (h !! a);
      r ← deref (Target.target t);
      if decide (server_Target.Name r = nameOrId) then
        match Target_State env t with
        | Err err => mret (Some (Err err))
        | Ok active =>
            (if bool_decide (provider ≠ "") && negb active
             then modify (set_heap
                    (<[a := Target.with_target
                              (server_Target.with_Provider provider r) t]> h))
             else mret tt);;
            mret (Some (Ok a))
        end
      else if decide (server_Target.ResourceId r = nameOrId) then
        mret (Some (Ok a))
      else Target_scan rest nameOrId provider
  end.

(** [Target], lines 292-329. *)
Definition Target_ (nameOrId provider : string) : M Store (result addr) :=
  tg ← gets targets;
  match tg !! nameOrId with
  | Some t => mret (Ok t)
  | None =>
      found ← Target_scan (range_targets env tg) nameOrId provider;
      match found with
      | Some r => mret r
      | None =>
          ref ← Ref;
          LoadTarget
            [WithTargetRef env
               {| Ref_Target.Project := Some ref;
                  Ref_Target.Name := nameOrId;
                  Ref_Target.ResourceId := nameOrId |};
             WithProvider env provider]
      end
  end.

(** Lines 539-550 of [Close]: the loop over the loaded targets. *)
Fixpoint close_targets (entries : list (string * addr)) (err : option error)
  : M Store (option error) :=
  match entries with
  | [] => mret err
  | (_, a) :: rest =>
      h ← gets heap;
      m ← deref (h !! a);
      emit (EvTargetClose a);;
      match Target_Close env a m with
      | Some cerr => close_targets rest (Some (multierror_Append err cerr))
      | None => close_targets rest err
      end
  end.

(** Lines 552-559 of [Close]: the loop over the closers. *)
Fixpoint run_closers (fs : list ProjectCloser) (err : option error)
  : M Store (option error) :=
  match fs with
  | [] => mret err
  | f :: rest =>
      emit (EvCloser (closer_id f));;
      match closer_err f with
      | Some cerr => run_closers rest (Some (multierror_Append err cerr))
      | None => run_closers rest err
      end
  end.

(** [Close], lines 534-563. *)
Definition Close : M Store (option error) :=
  tg ← gets targets;
  err ← close_targets (range_targets env tg) None;
  fs ← gets closers;
  err ← run_closers fs err;
  name ← Name;
  bp ← gets basis_projects;
  modify (set_basis_projects (delete name bp));;
  mret err.

(** [Save], lines 566-586.  The response is read whatever the error is. *)
Definition Save : M Store (option error) :=
  p ← gets project;
  _ ← deref p;
  l ← gets log;
  emit (EvUpsertProject p);;
  let '(result, err) := UpsertProject env l p in
  r ← deref result;
  modify (set_project r);;
  mret err.

(** [refreshProject], lines 676-695. *)
Definition refreshProject : M Store (option error) :=
  p ← gets project; r ← deref p;
  l ← gets log;
  emit (EvFindProject (server_Project.ResourceId r));;
  match FindProject env l (server_Project.ResourceId r) with
  | Err err => mret (Some err)
  | Ok result => modify (set_project result);; mret None
  end.

(** Lines 641-664 of [InitTargets]: the loop over the machine
    configurations; [inl err] is the return inside the loop, [inr updated]
    the end of the loop. *)
Fixpoint upsert_loop (configs : list (option Vagrantfile_MachineConfig.t))
    (updated : bool) : M Store (error + bool) :=
  match configs with
  | [] => mret (inr updated)
  | None :: rest => upsert_loop rest updated
  | Some t :: rest =>
      ref ← Ref;
      l ← gets log;
      let req := {| UpsertTargetRequest.Name := Vagrantfile_MachineConfig.Name t;
                    UpsertTargetRequest.Project := ref;
                    UpsertTargetRequest.Configuration := t |} in
      emit (EvUpsertTarget req);;
      match UpsertTarget env l req with
      | Some err => mret (inl err)
      | None => upsert_loop rest true
      end
  end.

(** [InitTargets], lines 616-673.  A nil slice of machine configurations
    and an empty one are both the empty list: neither does anything. *)
Definition InitTargets : M Store (option error) :=
  p ← gets project; r ← deref p;
  match server_Project.Configuration r with
  | None => mret None
  | Some c =>
      u ← upsert_loop (Vagrantfile.MachineConfigs c) false;
      match u with
      | inl err => mret (Some err)
      | inr true => refreshProject
      | inr false => mret None
      end
  end.

End Project.

(** ** The Factory ([factory.go]) *)

(** The child plugin manager [f.plugins.Sub(name)]. *)
Inductive PluginManager : Type :=
| Sub (name : string).

(** The options [NewBasis] is given: the caller's, then the two [New] adds. *)
Inductive BasisOption : Type :=
| CallerOption (id : nat)
| WithFactory
| FromBasis (pm : PluginManager).

(** A cleanup action of a Basis. *)
Inductive BasisCloser : Type :=
| CandidateCloser (id : nat) (err : option error)  (* attached by NewBasis *)
| Deregister                                       (* lines 88-93 *)
| ClosePlugins (pm : PluginManager).                (* lines 96-98 *)

(** What [NewBasis] hands back: the resolved name and the cleanup actions
    registered during construction. *)
Module Candidate.
Record t := { name : string; closers : list (nat * option error) }.
End Candidate.

Module Basis.
Record t := { name : string; closers : list BasisCloser }.

Definition of_candidate (c : Candidate.t) : t :=
  {| name := Candidate.name c;
     closers := map (λ c, CandidateCloser c.1 c.2) (Candidate.closers c) |}.

(** [b.Closer(c)]. *)
Definition Closer (c : BasisCloser) (b : t) : t :=
  {| name := name b; closers := closers b ++ [c] |}.
End Basis.

Inductive FactoryEvent : Type :=
| EvLock
| EvUnlock
| EvSub (name : string)
| EvNewBasis (opts : list BasisOption)
| EvBasisClose (b : addr)
| EvBasisCloser (id : nat)
| EvPluginsClose (pm : PluginManager).

Module Factory.
Record t := {
  registered : gmap string addr;   (* f.registered *)
  m : bool;                        (* f.m: is the mutex held *)
  bases : gmap addr Basis.t;       (* the Basis objects *)
  trace : list FactoryEvent }.

Definition set_registered (v : gmap string addr) (f : t) : t :=
  {| registered := v; m := m f; bases := bases f; trace := trace f |}.
Definition set_m (v : bool) (f : t) : t :=
  {| registered := registered f; m := v; bases := bases f; trace := trace f |}.
Definition set_bases (v : gmap addr Basis.t) (f : t) : t :=
  {| registered := registered f; m := m f; bases := v; trace := trace f |}.
Definition emit (e : FactoryEvent) : M t unit :=
  modify (λ f, {| registered := registered f; m := m f; bases := bases f;
                  trace := trace f ++ [e] |}).

(** [f.m.Lock()]: with the mutex held the caller waits, here for ever. *)
Definition Lock : M t unit :=
  held ← gets m;
  if held : bool then block else (emit EvLock;; modify (set_m true)).

(** [f.m.Unlock()]. *)
Definition Unlock : M t unit :=
  emit EvUnlock;; modify (set_m false).

(** A body run with [defer f.m.Unlock()] pending: the mutex is released
    when the body returns and when it panics. *)
Definition with_deferred_Unlock {A} (body : M t A) : M t A := λ f,
  match body f with
  | (f', Returns a) => ((Unlock f').1, Returns a)
  | (f', Panics) => ((Unlock f').1, Panics)
  | (f', Blocks) => (f', Blocks)
  end.

Section New.
(** [NewBasis], which is not in these sources: its answer to the options,
    possibly depending on what happened before. *)
Variable NewBasis : list FactoryEvent → list BasisOption → result Candidate.t.

(** One cleanup action of a Basis, lines 88-98 for the two of [New]. *)
Definition run_closer (b : Basis.t) (c : BasisCloser) : M t (option error) :=
  match c with
  | CandidateCloser id err => emit (EvBasisCloser id);; mret err
  | Deregister =>
      with_deferred_Unlock
        (Lock;;
         reg ← gets registered;
         modify (set_registered (delete (Basis.name b) reg));;
         mret None)
  | ClosePlugins pm => emit (EvPluginsClose pm);; mret None
  end.

Fixpoint run_closers (b : Basis.t) (cs : list BasisCloser)
    (err : option error) : M t (option error) :=
  match cs with
  | [] => mret err
  | c :: rest =>
      cerr ← run_closer b c;
      run_closers b rest
        (match cerr with
         | Some e => Some (multierror_Append err e)
         | None => err
         end)
  end.

(** Modelled from the spec: [Basis.Close] of [basis.go], which is not in
    these sources; it "runs its own cleanup actions in registration
    order, aggregating failures".  A Basis just built owns no Project. *)
Definition Basis_Close (a : addr) : M t (option error) :=
  bs ← gets bases;
  b ← deref (bs !! a);
  emit (EvBasisClose a);;
  run_closers b (Basis.closers b) None.

(** [b.Closer(c)] on the Basis at [a]. *)
Definition Basis_Closer (a : addr) (c : BasisCloser) : M t unit :=
  bs ← gets bases;
  modify (set_bases (alter (Basis.Closer c) a bs)).

(** [New], lines 40-101. *)
Definition New (name : string) (opts : list nat) : M t (result addr) :=
  with_deferred_Unlock
    (Lock;;
     reg ← gets registered;
     match (if decide (name ≠ "") then reg !! name else None) with
     | Some b => mret (Ok b)
     | None =>
         emit (EvSub name);;
         let pm := Sub name in
         let opts := map CallerOption opts ++ [WithFactory; FromBasis pm] in
         tr ← gets trace;
         emit (EvNewBasis opts);;
         match NewBasis tr opts with
         | Err err => mret (Err err)
         | Ok c =>
             bs ← gets bases;
             let b := fresh (dom bs) in
             modify (set_bases (<[b := Basis.of_candidate c]> bs));;
             reg ← gets registered;
             match reg !! Candidate.name c with
             | Some existingB => Basis_Close b;; mret (Ok existingB)
             | None =>
                 modify (set_registered (<[Candidate.name c := b]> reg));;
                 Basis_Closer b Deregister;;
                 Basis_Closer b (ClosePlugins pm);;
                 mret (Ok b)
             end
         end
     end).
End New.

(** Is the mutex free at every construction of a Basis in the trace, the
    mutex being [held] or not at its start? *)
Fixpoint constructs_unlocked (held : bool) (tr : list FactoryEvent) : bool :=
  match tr with
  | [] => true
  | EvLock :: tr' => constructs_unlocked true tr'
  | EvUnlock :: tr' => constructs_unlocked false tr'
  | EvNewBasis _ :: tr' => negb held && constructs_unlocked held tr'
  | _ :: tr' => constructs_unlocked held tr'
  end.

(** Is the mutex held at every construction of a Basis in the trace? *)
Fixpoint constructs_locked (held : bool) (tr : list FactoryEvent) : bool :=
  match tr with
  | [] => true
  | EvLock :: tr' => constructs_locked true tr'
  | EvUnlock :: tr' => constructs_locked false tr'
  | EvNewBasis _ :: tr' => held && constructs_locked held tr'
  | _ :: tr' => constructs_locked held tr'
  end.
End Factory.

(** ** Notions used to state the properties *)

(** The shell the options produce, when they all succeed. *)
Definition resolves (topts : list TargetOption) (t : Target.t)
    (r : server_Target.t) : Prop :=
  apply_options topts new_shell None = (t, None) ∧ Target.target t = Some r.

(** The data directory of the shell can be had: it is set, or
    [p.dir.Target] makes it. *)
Definition dir_available (env : Collaborators) (s : Store) (t : Target.t)
    (r : server_Target.t) : Prop :=
  Target.dir t = None →
  ∃ d, dir_Target env (log s) (server_Target.Name r) = Ok d.

(** An entry of the target map that the scan passes over: its Target is
    there and neither its name nor its resource id is the one looked for. *)
Definition passed_over (h : gmap addr Target.t) (nameOrId : string)
    (e : string * addr) : Prop :=
  ∃ t r, h !! e.2 = Some t ∧ Target.target t = Some r
         ∧ server_Target.Name r ≠ nameOrId
         ∧ server_Target.ResourceId r ≠ nameOrId.

(** The Target at [a] with its provider set. *)
Definition overwrite_provider (a : addr) (provider : string) (t : Target.t)
    (r : server_Target.t) (s : Store) : Store :=
  set_heap (<[a := Target.with_target (server_Target.with_Provider provider r) t]>
              (heap s)) s.

(** The state with more events logged. *)
Definition add_log (es : list Event) (s : Store) : Store :=
  {| project := project s; targets := targets s; closers := closers s;
     basis_projects := basis_projects s; heap := heap s;
     log := log s ++ es |}.

(** The request [InitTargets] sends for a machine configuration. *)
Definition upsert_request (ref : Ref_Project.t) (t : Vagrantfile_MachineConfig.t)
  : UpsertTargetRequest.t :=
  {| UpsertTargetRequest.Name := Vagrantfile_MachineConfig.Name t;
     UpsertTargetRequest.Project := ref;
     UpsertTargetRequest.Configuration := t |}.

(** The upserts for the machine configurations that are not nil. *)
Definition upserts (ref : Ref_Project.t)
    (configs : list (option Vagrantfile_MachineConfig.t)) : list Event :=
  omap (λ m, EvUpsertTarget ∘ upsert_request ref <$> m) configs.

(** Every upsert for [configs] succeeds when they are made one after the
    other from the log [l]. *)
Definition upserts_succeed (env : Collaborators) (ref : Ref_Project.t)
    (l : list Event) (configs : list (option Vagrantfile_MachineConfig.t)) : Prop :=
  ∀ pre t rest, configs = pre ++ Some t :: rest →
    UpsertTarget env (l ++ upserts ref pre) (upsert_request ref t) = None.

(** The ref of a project record, as [Ref] builds it. *)
Definition ref_of (r : server_Project.t) : Ref_Project.t :=
  {| Ref_Project.ResourceId := server_Project.ResourceId r;
     Ref_Project.Name := server_Project.Name r;
     Ref_Project.Basis := server_Project.Basis r |}.

(** [fmt.Sprintf("%d", i)] for a natural number. *)
Definition itoa (i : nat) : string := NilEmpty.string_of_uint (Nat.to_uint i).

(** The reference the test helper [projectTargets] records for its target
    number [i], and the list after [n] of them. *)
Definition target_ref (i : nat) : Ref_Target.t :=
  {| Ref_Target.ResourceId := "id-" +:+ itoa i;
     Ref_Target.Name := "target-" +:+ itoa i;
     Ref_Target.Project := None |}.

Definition recorded (n : nat) : list Ref_Target.t := map target_ref (seq 0 n).

(** What [go-multierror] makes of a list of failures appended one by one. *)
Definition aggregate (failures : list error) : option error :=
  match failures with
  | [] => None
  | _ => Some (MultiError (List.concat (map flatten failures)))
  end.

(** Is one of the machine configurations not nil? *)
Definition any_config (configs : list (option Vagrantfile_MachineConfig.t)) : bool :=
  existsb (λ m, match m with Some _ => true | None => false end) configs.

(** The failures of closing the targets at [entries], in that order, and
    the failures of the closers. *)
Definition target_failures (env : Collaborators) (h : gmap addr Target.t)
    (entries : list (string * addr)) : list error :=
  omap (λ e, h !! e.2 ≫= Target_Close env e.2) entries.

Definition closer_failures (fs : list ProjectCloser) : list error :=
  omap closer_err fs.

(** What [Close] does to the outside: it closes the targets at [entries],
    then runs the closers. *)
Definition close_events (entries : list (string * addr))
    (fs : list ProjectCloser) : list Event :=
  map (λ e, EvTargetClose e.2) entries ++ map (λ f, EvCloser (closer_id f)) fs.

(** The Factory with more events in its trace, and with the mutex free. *)
Definition add_trace (es : list FactoryEvent) (f : Factory.t) : Factory.t :=
  {| Factory.registered := Factory.registered f; Factory.m := Factory.m f;
     Factory.bases := Factory.bases f; Factory.trace := Factory.trace f ++ es |}.

(** The options [New] hands to [NewBasis]. *)
Definition basis_options (name : string) (opts : list nat) : list BasisOption :=
  map CallerOption opts ++ [WithFactory; FromBasis (Sub name)].

(** The first lookup of [New] finds nothing: no name, or a name that is not
    registered. *)
Definition first_lookup_misses (f : Factory.t) (name : string) : Prop :=
  name = "" ∨ Factory.registered f !! name = None.

(** The events of closing a candidate at [b]. *)
Definition candidate_close_events (b : addr) (c : Candidate.t)
  : list FactoryEvent :=
  EvBasisClose b :: map (λ x, EvBasisCloser x.1) (Candidate.closers c).

(** Neither a lock nor an unlock. *)
Definition not_mutex_event (e : FactoryEvent) : Prop :=
  e ≠ EvLock ∧ e ≠ EvUnlock.

(** ** Sample inputs *)

Module Sample.

(** No environment variable is set. *)
Definition no_env : string → string := λ _, "".

(** Only the vmware provider is installed, and it is usable. *)
Definition vmware_only : plugin.Manager :=
  {| plugin.ListPlugins := λ _,
       Ok [{| plugin.Name := "vmware"; plugin.Type_ := "provider" |}];
     plugin.GetPlugin := λ _ _, Ok (plugin.Provider (Ok true)) |}.

Definition machine (name : string) (providers : list string)
  : Vagrantfile_MachineConfig.t :=
  {| Vagrantfile_MachineConfig.Name := name;
     Vagrantfile_MachineConfig.ConfigVm :=
       Some {| Vagrantfile_ConfigVM.Providers :=
                 map (λ p, Some {| Vagrantfile_Provider.Type_ := p |}) providers |} |}.

(** A project record with the given references and machine configurations. *)
Definition record (refs : list Ref_Target.t)
    (machines : list (option Vagrantfile_MachineConfig.t)) : server_Project.t :=
  {| server_Project.ResourceId := "project-1";
     server_Project.Name := "demo";
     server_Project.Path := "/demo";
     server_Project.Basis :=
       {| Ref_Basis.ResourceId := "basis-1"; Ref_Basis.Name := "dev" |};
     server_Project.Targets := refs;
     server_Project.Configuration :=
       Some {| Vagrantfile.Path := "/demo/Vagrantfile";
               Vagrantfile.MachineConfigs := machines |} |}.

(** A project that configures virtualbox, then vmware. *)
Definition two_providers : option server_Project.t :=
  Some (record [] [Some (machine "default" ["virtualbox"; "vmware"])]).

(** A project that configures the machines web and db. *)
Definition web_db : list (option Vagrantfile_MachineConfig.t) :=
  [Some (machine "web" []); Some (machine "db" [])].

Definition check_usable : DefaultProviderOptions.t :=
  {| DefaultProviderOptions.Exclude := [];
     DefaultProviderOptions.ForceDefault := false;
     DefaultProviderOptions.MachineName := "";
     DefaultProviderOptions.CheckUsable := true |}.

Definition web : server_Target.t :=
  {| server_Target.ResourceId := "id-1"; server_Target.Name := "web";
     server_Target.Provider := "" |}.

Definition db : server_Target.t :=
  {| server_Target.ResourceId := "id-2"; server_Target.Name := "db";
     server_Target.Provider := "vmware" |}.

Definition loaded (r : server_Target.t) : Target.t :=
  {| Target.target := Some r; Target.dir := Some "/demo/data";
     Target.closers := [SaveOnClose] |}.

(** An option that sets the record of the shell, as a target ref resolved
    against the Persistence Client does. *)
Definition with_record (r : server_Target.t) : TargetOption :=
  λ t, (Target.with_target r t, None).

Definition mkdir_failed : error := ErrorString "mkdir: permission denied".
Definition upsert_failed : error := ErrorString "upsert failed".
Definition close_failed : error := ErrorString "close failed".

(** Collaborators: the data directories can be made or not; the upsert of
    a target named db fails; the target named db is active; closing the
    Target at address 1 fails; the upsert of the project succeeds or fails
    with no response. *)
Definition collaborators (dirs project_upserts : bool) : Collaborators :=
  {| UpsertTarget := λ _ req,
       if decide (UpsertTargetRequest.Name req = "db")
       then Some upsert_failed else None;
     FindProject := λ _ _, Ok None;
     UpsertProject := λ _ p,
       if project_upserts then (Some p, None) else (None, Some upsert_failed);
     dir_Target := λ _ name,
       if dirs then Ok ("/demo/data/" +:+ name) else Err mkdir_failed;
     Target_State := λ t,
       match Target.target t with
       | Some r => Ok (bool_decide (server_Target.Name r = "db"))
       | None => Err (ErrorString "no record")
       end;
     Target_Close := λ a _, if decide (a = 1) then Some close_failed else None;
     WithTargetRef := λ _ t, (t, Some (ErrorString "target not found"));
     WithProvider := λ _ t, (t, None);
     range_targets := map_to_list |}.

(** A project with the target web loaded at address 1, one closer that
    fails, and the references and machine configurations given. *)
Definition store (refs : list Ref_Target.t)
    (machines : list (option Vagrantfile_MachineConfig.t)) : Store :=
  {| project := Some (record refs machines);
     targets := {[ "id-1" := 1 ]};
     closers := [{| closer_id := 7; closer_err := Some close_failed |}];
     basis_projects := {[ "demo" := 0 ]};
     heap := {[ 1 := loaded web ]};
     log := [] |}.

(** [NewBasis] answering a candidate that resolves its name to dev, and
    [NewBasis] failing. *)
Definition NewBasis_dev : list FactoryEvent → list BasisOption → result Candidate.t :=
  λ _ _, Ok {| Candidate.name := "dev"; Candidate.closers := [(3, None)] |}.

Definition NewBasis_fails : list FactoryEvent → list BasisOption → result Candidate.t :=
  λ _ _, Err (ErrorString "construction failed").

(** A Factory with nothing registered, and one with dev registered. *)
Definition empty_factory : Factory.t :=
  {| Factory.registered := ∅; Factory.m := false; Factory.bases := ∅;
     Factory.trace := [] |}.

Definition dev_factory : Factory.t :=
  {| Factory.registered := {[ "dev" := 0 ]}; Factory.m := false;
     Factory.bases := {[ 0 := {| Basis.name := "dev"; Basis.closers := [] |} ]};
     Factory.trace := [] |}.

End Sample.

(** ** The rest of [project.go] *)

Definition set_closers (v : list ProjectCloser) (s : Store) : Store :=
  {| project := project s; targets := targets s; closers := v;
     basis_projects := basis_projects s; heap := heap s; log := log s |}.

(** [vagrant_server.Task], as far as [Run] reads it. *)
Module Task.
Record t := {
  Component_Name : string;      (* task.Component.Name *)
  CommandName : string;
  CliArgs : list string }.
End Task.

(** The [runError] that [Run] returns for a command that failed. *)
Module runError.
Record t := {
  err : option error;
  status : option string;       (* the status proto, when the error has one *)
  exitCode : Z }.
End runError.

(** The [error] that [Run] returns: an error passed on as it is, or a
    [*runError]. *)
Inductive RunError : Type :=
| Passed (e : error)
| Failed (r : runError.t).

Section Project_more.
Variable env : Collaborators.

(** [Closer], lines 528-530. *)
Definition Closer (c : ProjectCloser) : M Store unit :=
  modify (λ s, set_closers (closers s ++ [c]) s).

(** Lines 379-385 of [Targets]: the loop over the references, [targets]
    being the slice built so far. *)
Fixpoint Targets_loop (refs : list Ref_Target.t) (targets : list addr)
  : M Store (result (list addr)) :=
  match refs with
  | [] => mret (Ok targets)
  | ref :: rest =>
      t ← LoadTarget env [WithTargetRef env ref];
      match t with
      | Err err => mret (Err err)
      | Ok t => Targets_loop rest (targets ++ [t])
      end
  end.

(** [Targets], lines 377-387. *)
Definition Targets : M Store (result (list addr)) :=
  p ← gets project; r ← deref p;
  Targets_loop (server_Project.Targets r) [].

(** Lines 66-74 of [ActiveTargets]. *)
Fixpoint ActiveTargets_loop (targets activeTargets : list addr)
  : M Store (result (list addr)) :=
  match targets with
  | [] => mret (Ok activeTargets)
  | a :: rest =>
      h ← gets heap;
      t ← deref (h !! a);
      match Target_State env t with
      | Err err => mret (Err err)
      | Ok active =>
          ActiveTargets_loop rest
            (if active : bool then activeTargets ++ [a] else activeTargets)
      end
  end.

(** [ActiveTargets], lines 60-76. *)
Definition ActiveTargets : M Store (result (list addr)) :=
  ts ← Targets;
  match ts with
  | Err err => mret (Err err)
  | Ok targets => ActiveTargets_loop targets []
  end.

(** [Target.Save] of [target.go], which is not in these sources: what it
    answers for the Target at an address. *)
Variable Target_Save : addr → Target.t → option error.

(** Lines 593-605 of [SaveFull]: the loop over the loaded targets; the
    trace message reads [t.target.ResourceId]. *)
Fixpoint save_targets (entries : list (string * addr)) (err : option error)
  : M Store (option error) :=
  match entries with
  | [] => mret err
  | (_, a) :: rest =>
      h ← gets heap;
      t ← deref (h !! a);
      _ ← deref (Target.target t);
      match Target_Save a t with
      | Some terr => save_targets rest (Some (multierror_Append err terr))
      | None => save_targets rest err
      end
  end.

(** [SaveFull], lines 589-610; the debug message reads
    [p.project.ResourceId]. *)
Definition SaveFull : M Store (option error) :=
  p ← gets project;
  _ ← deref p;
  tg ← gets targets;
  err ← save_targets (range_targets env tg) None;
  perr ← Save env;
  match perr with
  | Some perr => mret (Some (multierror_Append err perr))
  | None => mret err
  end.

(** The collaborators of [Run]: the component lookup of the Basis, the
    call of the command's function through [callDynamicFunc] (its result,
    when there is one, is an [int32]), and [status.FromError]. *)
Variable component : list Event → string → result nat.
Variable callDynamicFunc :
  list Event → nat → list string → list string → option Z * option error.
Variable status_FromError : error → option string.

(** [Run], lines 464-512. *)
Definition Run (task : Task.t) : M Store (option RunError) :=
  ierr ← InitTargets env;
  match ierr with
  | Some err => mret (Some (Passed err))
  | None =>
      l ← gets log;
      match component l (Task.Component_Name task) with
      | Err err => mret (Some (Passed err))
      | Ok cmd =>
          let '(result, err) :=
            callDynamicFunc l cmd (strings.Split (Task.CommandName task) " ")
              (Task.CliArgs task) in
          if bool_decide (err ≠ None) || bool_decide (result ≠ Some 0%Z)
          then mret (Some (Failed
                 {| runError.err := err;
                    runError.status := err ≫= status_FromError;
                    runError.exitCode := default 0%Z result |}))
          else mret None
      end
  end.

End Project_more.

(** ** Project options ([WithBasis], [WithProjectDataDir], [WithProjectRef])

    An option works on the Project under construction: its Basis, if it is
    set, is seen as the records of the projects the Basis has loaded, by
    name. *)

Inductive ProjectCall : Type :=
| CallFindProject (basis : Ref_Basis.t) (name path : string)
| CallUpsertProject (name path : string) (basis : Ref_Basis.t).

(** The Persistence Client as the options use it; a response that comes
    without error is there, its record may be absent. *)
Record ProjectClient := {
  FindProjectByRef : list ProjectCall → Ref_Basis.t → string → string
                     → result (option server_Project.t);
  UpsertNewProject : list ProjectCall → string → string → Ref_Basis.t
                     → result (option server_Project.t) }.

Module Loading.
Record t := {
  basis : option (gmap string (option server_Project.t));  (* p.basis.projects *)
  project : option server_Project.t;                      (* p.project *)
  dir : option string;                                    (* p.dir *)
  calls : list ProjectCall }.

Definition set_basis (v : gmap string (option server_Project.t)) (p : t) : t :=
  {| basis := Some v; project := project p; dir := dir p; calls := calls p |}.
Definition set_project (v : option server_Project.t) (p : t) : t :=
  {| basis := basis p; project := v; dir := dir p; calls := calls p |}.
Definition set_dir (v : string) (p : t) : t :=
  {| basis := basis p; project := project p; dir := Some v; calls := calls p |}.
Definition call (c : ProjectCall) : M t unit :=
  modify (λ p, {| basis := basis p; project := project p; dir := dir p;
                  calls := calls p ++ [c] |}).
End Loading.

(** [WithBasis], lines 739-744. *)
Definition WithBasis (b : gmap string (option server_Project.t))
  : M Loading.t (option error) :=
  modify (Loading.set_basis b);; mret None.

(** [WithProjectDataDir], lines 746-751. *)
Definition WithProjectDataDir (dir : string) : M Loading.t (option error) :=
  modify (Loading.set_dir dir);; mret None.

(** Lines 833-841 of [WithProjectRef]: the record the client answered is
    checked against the Basis of the ref and becomes the record of the
    Project. *)
Definition adopt_project (r : Ref_Project.t) (found : option server_Project.t)
  : M Loading.t (option error) :=
  project ← deref found;
  if decide (Ref_Basis.ResourceId (server_Project.Basis project)
             ≠ Ref_Basis.ResourceId (Ref_Project.Basis r))
  then mret (Some (ErrorString "project basis configuration is invalid"))
  else modify (Loading.set_project (Some project));; mret None.

(** [WithProjectRef], lines 791-843, for the ref [r] and its [Path] field,
    which [Ref_Project.t] does not carry. *)
Definition WithProjectRef (client : ProjectClient) (r : Ref_Project.t)
    (Path : string) : M Loading.t (option error) :=
  b ← gets Loading.basis;
  match b with
  | None => mret (Some (ErrorString "basis must be set before loading project"))
  | Some projects =>
      match projects !! Ref_Project.Name r with
      | Some ex => mret None
      | None =>
          cs ← gets Loading.calls;
          Loading.call (CallFindProject (Ref_Project.Basis r)
                          (Ref_Project.Name r) Path);;
          match FindProjectByRef client cs (Ref_Project.Basis r)
                  (Ref_Project.Name r) Path with
          | Ok found => adopt_project r found
          | Err _ =>
              cs ← gets Loading.calls;
              Loading.call (CallUpsertProject (Ref_Project.Name r)
                              (Ref_Project.Name r) (Ref_Project.Basis r));;
              match UpsertNewProject client cs (Ref_Project.Name r)
                      (Ref_Project.Name r) (Ref_Project.Basis r) with
              | Err err => mret (Some err)
              | Ok upserted => adopt_project r upserted
              end
          end
      end
  end.

(** ** [NewFactory] and the test helper [projectTargets] *)

(** [NewFactory], lines 23-38: nothing is registered and the mutex is free;
    [bases] are the Basis objects there are. *)
Definition NewFactory (bases : gmap addr Basis.t) : Factory.t :=
  {| Factory.registered := ∅; Factory.m := false; Factory.bases := bases;
     Factory.trace := [] |}.

(** Lines 13-23 of [projectTargets]: [k] iterations are left, [i] is the
    index; [TestTarget] is given the resource id, the name and the uuid,
    and its target is appended whether it failed or not. *)
Fixpoint projectTargets_loop
    (TestTarget : string → string → string → M Store (option addr * option error))
    (k i : nat) (targets : list (option addr)) : M Store (list (option addr)) :=
  match k with
  | O => mret targets
  | S k' =>
      r ← TestTarget ("id-" +:+ itoa i) ("target-" +:+ itoa i) ("uuid-" +:+ itoa i);
      projectTargets_loop TestTarget k' (S i) (targets ++ [r.1])
  end.

(** [projectTargets], lines 11-25: the slice starts as [numTargets] nil
    pointers. *)
Definition projectTargets
    (TestTarget : string → string → string → M Store (option addr * option error))
    (numTargets : nat) : M Store (list (option addr)) :=
  projectTargets_loop TestTarget numTargets 0 (replicate numTargets None).

(** ** Invariants *)

(** Every address in the target map is that of a Target with a record,
    and the key is the resource id of that record. *)
Definition targets_well_keyed (s : Store) : Prop :=
  ∀ k a, targets s !! k = Some a →
    ∃ t r, heap s !! a = Some t ∧ Target.target t = Some r
           ∧ server_Target.ResourceId r = k.

(** Every entry of the registry is a Basis object whose name is the key. *)
Definition registry_well_named (f : Factory.t) : Prop :=
  ∀ n a, Factory.registered f !! n = Some a →
    ∃ b, Factory.bases f !! a = Some b ∧ Basis.name b = n.

(** No Basis is registered under two names. *)
Definition registry_injective (f : Factory.t) : Prop :=
  ∀ n1 n2 a, Factory.registered f !! n1 = Some a →
    Factory.registered f !! n2 = Some a → n1 = n2.

(** The errors of the options of a load, each applied to the shell the
    ones before it left. *)
Fixpoint option_failures (topts : list TargetOption) (t : Target.t) : list error :=
  match topts with
  | [] => []
  | opt :: rest =>
      match (opt t).2 with
      | Some e => e :: option_failures rest (opt t).1
      | None => option_failures rest (opt t).1
      end
  end.

(** Is the Target at [a] there, and active? *)
Definition is_active (env : Collaborators) (h : gmap addr Target.t) (a : addr)
  : bool :=
  match h !! a with
  | Some t => match Target_State env t with Ok true => true | _ => false end
  | None => false
  end.

(** The failures of saving the targets at [entries], in that order. *)
Definition save_failures (Target_Save : addr → Target.t → option error)
    (h : gmap addr Target.t) (entries : list (string * addr)) : list error :=
  omap (λ e, h !! e.2 ≫= Target_Save e.2) entries.

(** ** More sample inputs *)

Module Sample2.

(** VAGRANT_DEFAULT_PROVIDER is set to virtualbox, nothing else is. *)
Definition default_virtualbox : string → string :=
  λ name, if decide (name = "VAGRANT_DEFAULT_PROVIDER") then "virtualbox" else "".

Definition forced : DefaultProviderOptions.t :=
  {| DefaultProviderOptions.Exclude := [];
     DefaultProviderOptions.ForceDefault := true;
     DefaultProviderOptions.MachineName := "";
     DefaultProviderOptions.CheckUsable := true |}.

(** vmware is excluded and no plugin is loaded to check it. *)
Definition unchecked : DefaultProviderOptions.t :=
  {| DefaultProviderOptions.Exclude := ["vmware"];
     DefaultProviderOptions.ForceDefault := false;
     DefaultProviderOptions.MachineName := "";
     DefaultProviderOptions.CheckUsable := false |}.

Definition ref (r : server_Target.t) : Ref_Target.t :=
  {| Ref_Target.ResourceId := server_Target.ResourceId r;
     Ref_Target.Name := server_Target.Name r;
     Ref_Target.Project := None |}.

(** An option that resolves the refs named web and db and no other. *)
Definition resolve (r : Ref_Target.t) : TargetOption :=
  λ t,
    if decide (Ref_Target.Name r = "web") then (Target.with_target Sample.web t, None)
    else if decide (Ref_Target.Name r = "db") then (Target.with_target Sample.db t, None)
    else (t, Some (ErrorString "target not found")).

(** The record the Persistence Client has of the project. *)
Definition served : server_Project.t :=
  Sample.record [ref Sample.web; ref Sample.db] Sample.web_db.

(** Collaborators with which nothing fails: refs are resolved by name,
    the target named db is active, and the Persistence Client answers
    with its record of the project. *)
Definition collaborators : Collaborators :=
  {| UpsertTarget := λ _ _, None;
     FindProject := λ _ _, Ok (Some served);
     UpsertProject := λ _ _, (Some (Some served), None);
     dir_Target := λ _ name, Ok ("/demo/data/" +:+ name);
     Target_State := λ t,
       match Target.target t with
       | Some r => Ok (bool_decide (server_Target.Name r = "db"))
       | None => Err (ErrorString "no record")
       end;
     Target_Close := λ _ _, None;
     WithTargetRef := resolve;
     WithProvider := λ _ t, (t, None);
     range_targets := map_to_list |}.

(** A project with web and db recorded and loaded. *)
Definition store : Store :=
  {| project := Some (Sample.record [ref Sample.web; ref Sample.db] []);
     targets := {[ "id-1" := 1; "id-2" := 2 ]};
     closers := [];
     basis_projects := {[ "demo" := 0 ]};
     heap := {[ 1 := Sample.loaded Sample.web; 2 := Sample.loaded Sample.db ]};
     log := [] |}.

(** A project with the machine web configured and nothing loaded. *)
Definition configured : Store :=
  {| project := Some (Sample.record [] [Some (Sample.machine "web" [])]);
     targets := ∅; closers := []; basis_projects := ∅; heap := ∅; log := [] |}.

(** Saving the Target at address 1 fails. *)
Definition Target_Save : addr → Target.t → option error :=
  λ a _, if decide (a = 1) then Some (ErrorString "save failed") else None.

(** The Persistence Client of the options: the project demo is found, no
    other is, and an upsert answers a project of the Basis asked for. *)
Definition client : ProjectClient :=
  {| FindProjectByRef := λ _ _ name _,
       if decide (name = "demo") then Ok (Some served)
       else Err (ErrorString "not found");
     UpsertNewProject := λ _ name path basis,
       Ok (Some {| server_Project.ResourceId := "project-2";
                   server_Project.Name := name;
                   server_Project.Path := path;
                   server_Project.Basis := basis;
                   server_Project.Targets := [];
                   server_Project.Configuration := None |}) |}.

Definition project_ref (name : string) : Ref_Project.t :=
  {| Ref_Project.ResourceId := ""; Ref_Project.Name := name;
     Ref_Project.Basis :=
       {| Ref_Basis.ResourceId := "basis-1"; Ref_Basis.Name := "dev" |} |}.

(** A Project under construction whose Basis has loaded nothing. *)
Definition loading : Loading.t :=
  {| Loading.basis := Some ∅; Loading.project := None; Loading.dir := None;
     Loading.calls := [] |}.

(** A [TestTarget] that makes nothing and fails. *)
Definition TestTarget_fails
  : string → string → string → M Store (option addr * option error) :=
  λ _ _ _, mret (None, Some (ErrorString "no server")).

End Sample2.

(** ** Notions for the order of the configuration and of the loads *)


(** The references load one after the other, each from the store the load
    before it left: the Targets they answer, and the store at the end. *)
Inductive loaded_in_order (env : Collaborators)
  : list Ref_Target.t → Store → list addr → Store → Prop :=
| loaded_none (s : Store) : loaded_in_order env [] s [] s
| loaded_next (ref : Ref_Target.t) (refs : list Ref_Target.t)
    (s s1 s2 : Store) (a : addr) (ts : list addr) :
    LoadTarget env [WithTargetRef env ref] s = (s1, Returns (Ok a)) →
    loaded_in_order env refs s1 ts s2 →
    loaded_in_order env (ref :: refs) s (a :: ts) s2.

Module Sample3.




(** Collaborators as in [Sample2], but closing the Target at address 2
    fails and the range statement visits the target map backwards. *)
Definition backwards : Collaborators :=
  {| UpsertTarget := UpsertTarget Sample2.collaborators;
     FindProject := FindProject Sample2.collaborators;
     UpsertProject := UpsertProject Sample2.collaborators;
     dir_Target := dir_Target Sample2.collaborators;
     Target_State := Target_State Sample2.collaborators;
     Target_Close := λ a _,
       if decide (a = 2) then Some Sample.close_failed else None;
     WithTargetRef := WithTargetRef Sample2.collaborators;
     WithProvider := WithProvider Sample2.collaborators;
     range_targets := λ m, reverse (map_to_list m) |}.

(** A project with web and db loaded, one closer, and the references given. *)
Definition two_loaded (refs : list Ref_Target.t) : Store :=
  {| project := Some (Sample.record refs []);
     targets := {[ "id-1" := 1; "id-2" := 2 ]};
     closers := [{| closer_id := 7; closer_err := Some Sample.close_failed |}];
     basis_projects := {[ "demo" := 0; "other" := 5 ]};
     heap := {[ 1 := Sample.loaded Sample.web; 2 := Sample.loaded Sample.db ]};
     log := [] |}.

(** A reference that the Persistence Client does not know. *)
Definition ghost : Ref_Target.t :=
  {| Ref_Target.ResourceId := "id-9"; Ref_Target.Name := "ghost";
     Ref_Target.Project := None |}.

End Sample3.

(** * Properties *)

(** * Strings *)

Example Split_commas : strings.Split "a, b,,c" "," = ["a"; " b"; ""; "c"].
Proof. reflexivity. Qed.

Example Split_empty : strings.Split "" "," = [""].
Proof. reflexivity. Qed.

Example TrimSpace_ascii :
  strings.TrimSpace (String (strings.byte 9) " vm ware  ") = "vm ware".
Proof. reflexivity. Qed.

(** A no-break space (U+00A0, bytes C2 A0) is trimmed; a lone C2 is not. *)
Example TrimSpace_unicode :
  strings.TrimSpace
    (String (strings.byte 194) (String (strings.byte 160) "kvm"))
  = "kvm"
  ∧ strings.TrimSpace (String (strings.byte 194) "kvm")
    = String (strings.byte 194) "kvm".
Proof. split; reflexivity. Qed.

(** * Default-provider selection *)

Section for_range_facts.
Context {A R : Type} `{EqDecision A}.

Lemma for_range_None (l : list A) :
  for_range l (λ _, @None R) = None.
Proof. induction l as [|x l IH]; simpl; auto. Qed.

(** A loop that looks for [c] in [l] and answers [k] where it finds it. *)
Lemma for_range_eq (c : A) (k : option R) (l : list A) :
  for_range l (λ x, if decide (c = x) then k else None)
  = if bool_decide (c ∈ l) then k else None.
Proof.
  induction l as [|x l IH]; cbn [for_range].
  - rewrite bool_decide_eq_false_2; [done | by intros ?%not_elem_of_nil].
  - destruct (decide (c = x)) as [->|Hne].
    + rewrite (bool_decide_eq_true_2 (x ∈ x :: l)) by (by left).
      destruct k; [done |]. rewrite IH. by destruct (bool_decide (x ∈ l)).
    + rewrite IH. apply (f_equal (λ b : bool, if b then k else None)).
      apply bool_decide_ext. rewrite elem_of_cons. tauto.
Qed.

(** A loop that answers the first element passing a test. *)
Lemma for_range_find (P : A → bool) (l : list A) :
  for_range l (λ x, if P x then Some x else None) = List.find P l.
Proof.
  induction l as [|x l IH]; simpl; [done |].
  destruct (P x); [done | apply IH].
Qed.

Lemma for_range_ext (f g : A → option R) (l : list A) :
  (∀ x, f x = g x) → for_range l f = for_range l g.
Proof.
  intros E. induction l as [|x l IH]; simpl; [done |]. by rewrite E, IH.
Qed.

End for_range_facts.

Lemma for_range_self (d : string) (l : list string) :
  for_range l (λ u, if decide (u = d) then Some u else None)
  = if bool_decide (d ∈ l) then Some d else None.
Proof.
  rewrite <- (for_range_eq d (Some d) l). apply for_range_ext.
  intros x. destruct (decide (x = d)), (decide (d = x)); congruence.
Qed.

(** The in-place compaction keeps the entries that are not empty once
    trimmed, in their order. *)
Lemma compact_take (n i k : nat) (arr rest : list string) :
  (k ≤ i)%nat → drop i arr = rest → List.length rest = n →
  take (compact n i k arr).2 (compact n i k arr).1
  = take k arr
    ++ List.filter (λ s, bool_decide (s ≠ "")) (map strings.TrimSpace rest).
Proof.
  revert i k arr rest.
  induction n as [|n IH]; intros i k arr rest Hk Hdrop Hlen; simpl.
  - destruct rest; [| done]. simpl. by rewrite app_nil_r.
  - destruct rest as [|pp rest]; [done |].
    assert (Hi : arr !! i = Some pp).
    { rewrite <- (Nat.add_0_r i), <- lookup_drop, Hdrop. done. }
    assert (Hrest : drop (S i) arr = rest).
    { rewrite <- Nat.add_1_r, <- drop_drop, Hdrop. done. }
    rewrite Hi. simpl in Hlen.
    assert (Hlt : k < List.length arr).
    { apply lookup_lt_Some in Hi. lia. }
    destruct (decide (strings.TrimSpace pp ≠ "")) as [Hne|He]; simpl.
    + rewrite (IH (S i) (S k) _ rest); [| lia | | lia].
      * rewrite bool_decide_eq_true_2 by done.
        erewrite take_S_r by (by apply list_lookup_insert_eq).
        rewrite take_insert_ge by lia. by rewrite <- app_assoc.
      * rewrite drop_insert_lt by lia. done.
    + rewrite (IH (S i) k arr rest); [| lia | done | lia].
      rewrite bool_decide_eq_false_2 by done. done.
Qed.

Lemma preferredProviders_preferred_list (Getenv : string → string) :
  preferredProviders Getenv = preferred_list Getenv.
Proof.
  unfold preferredProviders, preferred_list.
  set (arr := strings.Split _ _).
  pose proof (compact_take (List.length arr) 0 0 arr arr) as H.
  destruct (compact (List.length arr) 0 0 arr) as [arr' k].
  simpl in H. apply H; [lia | done | done].
Qed.

Lemma for_range_member (c : string) (l : list string) :
  for_range l (λ x, if decide (c = x) then Some x else None)
  = if bool_decide (c ∈ l) then Some c else None.
Proof.
  rewrite <- (for_range_eq c (Some c) l). apply for_range_ext.
  intros x. destruct (decide (c = x)); congruence.
Qed.

(** The nested loops of lines 182-256 compute the ordered tiers. *)
Lemma select_tiers (d : string) (configured usable preferred : list string) :
  select d configured usable preferred = tiers d configured usable preferred.
Proof.
  unfold select, tiers.
  rewrite for_range_self.
  destruct (bool_decide (d ∈ usable)); [done |].
  rewrite (for_range_ext _
             (λ cp, if bool_decide (cp ∈ usable) && bool_decide (cp ∈ preferred)
                    then Some cp else None)).
  2:{ intros cp.
      rewrite (for_range_eq cp
                 (for_range preferred
                    (λ pp, if decide (cp = pp) then Some pp else None))).
      rewrite for_range_member.
      by destruct (bool_decide (cp ∈ usable)), (bool_decide (cp ∈ preferred)). }
  rewrite for_range_find.
  destruct (List.find _ configured); [done |].
  rewrite (for_range_ext _
             (λ cp, if bool_decide (cp ∈ usable) then Some cp else None)).
  2:{ intros cp. apply for_range_eq. }
  rewrite for_range_find.
  destruct (List.find _ configured); [done |].
  rewrite (for_range_ext _
             (λ pp, if bool_decide (pp ∈ usable) then Some pp else None)).
  2:{ intros pp. apply for_range_eq. }
  rewrite for_range_find.
  by destruct (List.find _ preferred).
Qed.

(** The configured providers are the provider types of the machine
    configurations that pass the machine-name filter, in declaration order. *)
Lemma configProviders_flat (project : option server_Project.t)
    (opts : DefaultProviderOptions.t) :
  configProviders project opts
  = flat_map
      (λ m, if bool_decide (DefaultProviderOptions.MachineName opts ≠ "")
               && bool_decide (DefaultProviderOptions.MachineName opts ≠ GetName m)
            then [] else map GetType (GetProviders (GetConfigVm m)))
      (GetMachineConfigs (GetConfiguration project)).
Proof.
  unfold configProviders.
  assert (Hin : ∀ (ps : list (option Vagrantfile_Provider.t)) acc,
             foldl (λ acc p, acc ++ [GetType p]) acc ps = acc ++ map GetType ps).
  { induction ps as [|p ps IH]; intros acc; simpl.
    - by rewrite app_nil_r.
    - rewrite IH. by rewrite <- app_assoc. }
  set (skip := λ m, bool_decide (DefaultProviderOptions.MachineName opts ≠ "")
        && bool_decide (DefaultProviderOptions.MachineName opts ≠ GetName m)).
  assert (Hout : ∀ (ms : list (option Vagrantfile_MachineConfig.t)) acc,
             foldl (λ acc m, if skip m then acc
                             else foldl (λ acc p, acc ++ [GetType p]) acc
                                    (GetProviders (GetConfigVm m))) acc ms
             = acc ++ flat_map (λ m, if skip m then []
                                     else map GetType (GetProviders (GetConfigVm m)))
                        ms).
  { induction ms as [|m ms IH]; intros acc; simpl.
    - by rewrite app_nil_r.
    - rewrite IH. destruct (skip m); simpl; [done |].
      rewrite Hin. by rewrite <- app_assoc. }
  apply Hout.
Qed.



(** The preferred list: split at commas, trimmed, empty entries dropped. *)
Example preferredProviders_parsed :
  preferredProviders (λ _, " vmware , ,virtualbox,") = ["vmware"; "virtualbox"].
Proof. reflexivity. Qed.

(** A forced environment default is returned without any check: whether
    or not a plugin of that name is installed, usable or excluded, and
    whatever the plugin manager answers. *)
Lemma DefaultProvider_forced (Getenv : string → string)
    (plugins : plugin.Manager) (project : option server_Project.t)
    (opts : DefaultProviderOptions.t) :
  Getenv "VAGRANT_DEFAULT_PROVIDER" ≠ "" →
  DefaultProviderOptions.ForceDefault opts = true →
  DefaultProvider Getenv plugins project opts
  = Done (Ok (Getenv "VAGRANT_DEFAULT_PROVIDER")).
Proof.
  intros Hd Hf. unfold DefaultProvider.
  by rewrite bool_decide_eq_true_2, Hf.
Qed.

(** The preference breaks the tie of the configuration order. *)
Example select_preferred :
  select "" ["vmware"; "virtualbox"] ["virtualbox"; "vmware"] ["virtualbox"]
  = Ok "virtualbox".
Proof. reflexivity. Qed.

(** Without the usability check, the usable providers are the listed
    plugins that are not excluded, in listing order. *)
Lemma usable_loop_unchecked (plugins : plugin.Manager)
    (opts : DefaultProviderOptions.t) (listed : list plugin.Plugin)
    (acc : list string) :
  DefaultProviderOptions.CheckUsable opts = false →
  usable_loop plugins opts listed acc
  = Done (Ok (acc ++ List.filter
                       (λ n, negb (DefaultProviderOptions.IsExcluded opts n))
                       (map plugin.Name listed))).
Proof.
  intros Hc. revert acc. induction listed as [|pp listed IH]; intros acc; cbn.
  - by rewrite app_nil_r.
  - destruct (DefaultProviderOptions.IsExcluded opts (plugin.Name pp)); cbn.
    + apply IH.
    + rewrite Hc, IH. by rewrite <- app_assoc.
Qed.

(** * Loading targets *)

(** Runs the monadic code on the state at hand. *)
Ltac run :=
  repeat (progress (unfold mbind, M_bind, mret, M_ret, gets, modify, deref,
                      panic, block, emit; cbn [fst snd])).

Lemma ensure_dir_inv (env : Collaborators) (t t' : Target.t) (s s' : Store) :
  ensure_dir env t s = (s', Returns (Ok t')) →
  Target.target t' = Target.target t
  ∧ targets s' = targets s ∧ heap s' = heap s ∧ project s' = project s.
Proof.
  unfold ensure_dir. destruct (Target.dir t) as [d|].
  - run. intros [= <- <-]. done.
  - run. destruct (Target.target t) as [r|] eqn:Et; [| done]. simpl.
    destruct (dir_Target env (log s) (server_Target.Name r)); [| done].
    intros [= <- <-]. simpl. by rewrite Et.
Qed.

Lemma ensure_dir_available (env : Collaborators) (t : Target.t)
    (r : server_Target.t) (s : Store) :
  Target.target t = Some r → dir_available env s t r →
  ∃ s' t', ensure_dir env t s = (s', Returns (Ok t')).
Proof.
  intros Ht Hd. unfold ensure_dir. destruct (Target.dir t) as [d|] eqn:E.
  - by eexists _, _.
  - destruct (Hd E) as [d Hdir]. run. rewrite Ht. simpl. rewrite Hdir.
    by eexists _, _.
Qed.

(** A load that reaches the registry and finds the id there. *)
Lemma LoadTarget_hit (env : Collaborators) (s : Store)
    (topts : list TargetOption) (t : Target.t) (r : server_Target.t) (a : addr) :
  resolves topts t r → dir_available env s t r →
  targets s !! server_Target.ResourceId r = Some a →
  ∃ s', LoadTarget env topts s = (s', Returns (Ok a))
        ∧ targets s' = targets s ∧ heap s' = heap s.
Proof.
  intros [Ha Ht] Hd Hreg. unfold LoadTarget. rewrite Ha.
  destruct (ensure_dir_available env t r s Ht Hd) as (s' & t' & He).
  destruct (ensure_dir_inv env t t' s s' He) as (Ht' & Htg & Hh & _).
  run. rewrite He. run. rewrite Ht', Ht. simpl. rewrite Htg, Hreg.
  eexists. split; [done |]. done.
Qed.

(** A load that succeeds leaves its answer registered under the id. *)
Lemma LoadTarget_registers (env : Collaborators) (s s' : Store)
    (topts : list TargetOption) (t : Target.t) (r : server_Target.t) (a : addr) :
  resolves topts t r →
  LoadTarget env topts s = (s', Returns (Ok a)) →
  targets s' !! server_Target.ResourceId r = Some a.
Proof.
  intros [Ha Ht]. unfold LoadTarget. rewrite Ha. run.
  destruct (ensure_dir env t s) as [s1 [[t'|e]| |]] eqn:He; try done.
  destruct (ensure_dir_inv env t t' s s1 He) as (Ht' & Htg & Hh & _).
  run. rewrite Ht', Ht. simpl.
  destruct (targets s1 !! server_Target.ResourceId r) as [b|] eqn:Hreg.
  - intros [= <- <-]. done.
  - intros [= <- <-]. simpl. apply lookup_insert_eq.
Qed.

(** C2 (amended). [LoadTarget] is idempotent per resource id once the
    options have been applied without error and the data directory of the
    shell is available: if a Target with the resolved resource id is
    registered in the target map, the shell is discarded (target map and heap
    are unchanged) and the registered instance is returned; so after a load
    that succeeded, a second such load of the same resource id returns the
    same instance. *)
Theorem LoadTarget_idempotent (env : Collaborators) :
  (∀ s topts t r a,
     resolves topts t r → dir_available env s t r →
     targets s !! server_Target.ResourceId r = Some a →
     ∃ s', LoadTarget env topts s = (s', Returns (Ok a))
           ∧ targets s' = targets s ∧ heap s' = heap s)
  ∧ (∀ s s1 topts1 topts2 t1 r1 t2 r2 a,
       resolves topts1 t1 r1 → resolves topts2 t2 r2 →
       server_Target.ResourceId r1 = server_Target.ResourceId r2 →
       LoadTarget env topts1 s = (s1, Returns (Ok a)) →
       dir_available env s1 t2 r2 →
       ∃ s2, LoadTarget env topts2 s1 = (s2, Returns (Ok a))
             ∧ targets s2 = targets s1 ∧ heap s2 = heap s1).
Proof.
  split.
  - intros s topts t r a. apply LoadTarget_hit.
  - intros s s1 topts1 topts2 t1 r1 t2 r2 a H1 H2 Hid Hload Hd.
    apply (LoadTarget_hit env s1 topts2 t2 r2 a H2 Hd).
    rewrite <- Hid. by apply (LoadTarget_registers env s s1 topts1 t1 r1 a).
Qed.

(** * Looking a target up *)

Lemma Target_scan_skip (env : Collaborators) (pre rest : list (string * addr))
    (nameOrId provider : string) (s : Store) :
  Forall (passed_over (heap s) nameOrId) pre →
  Target_scan env (pre ++ rest) nameOrId provider s
  = Target_scan env rest nameOrId provider s.
Proof.
  induction pre as [|[k a] pre IH]; intros Hpre; [done |].
  apply Forall_cons in Hpre as [(t & r & Ht & Hr & Hn & Hi) Hpre].
  simpl in Ht. cbn [app Target_scan]. run. rewrite Ht. cbn. rewrite Hr. cbn.
  rewrite decide_False by done. rewrite decide_False by done. by apply IH.
Qed.

Lemma Target_scan_name (env : Collaborators) (k : string) (a : addr)
    (rest : list (string * addr)) (nameOrId provider : string) (s : Store)
    (t : Target.t) (r : server_Target.t) (active : bool) :
  heap s !! a = Some t → Target.target t = Some r →
  server_Target.Name r = nameOrId → Target_State env t = Ok active →
  Target_scan env ((k, a) :: rest) nameOrId provider s
  = (if bool_decide (provider ≠ "") && negb active
     then overwrite_provider a provider t r s else s,
     Returns (Some (Ok a))).
Proof.
  intros Ht Hr Hn Hst. cbn [Target_scan]. run. rewrite Ht. cbn. rewrite Hr. cbn.
  rewrite decide_True by done. rewrite Hst.
  by destruct (bool_decide (provider ≠ "") && negb active).
Qed.

Lemma Target_scan_id (env : Collaborators) (k : string) (a : addr)
    (rest : list (string * addr)) (nameOrId provider : string) (s : Store)
    (t : Target.t) (r : server_Target.t) :
  heap s !! a = Some t → Target.target t = Some r →
  server_Target.Name r ≠ nameOrId → server_Target.ResourceId r = nameOrId →
  Target_scan env ((k, a) :: rest) nameOrId provider s
  = (s, Returns (Some (Ok a))).
Proof.
  intros Ht Hr Hn Hi. cbn [Target_scan]. run. rewrite Ht. cbn. rewrite Hr. cbn.
  rewrite decide_False by done. by rewrite decide_True by done.
Qed.

(** The scan leaves every active Target as it is. *)
Lemma Target_scan_active (env : Collaborators) (entries : list (string * addr))
    (nameOrId provider : string) (s s' : Store)
    (out : outcome (option (result addr))) (a : addr) (t : Target.t) :
  Target_scan env entries nameOrId provider s = (s', out) →
  heap s !! a = Some t → Target_State env t = Ok true →
  heap s' !! a = Some t.
Proof.
  induction entries as [|[k b] rest IH]; cbn [Target_scan]; run.
  - by intros [= <- _].
  - intros Hscan Ha Hact.
    destruct (heap s !! b) as [tb|] eqn:Hb; cbn in Hscan;
      [| by injection Hscan as <- _].
    destruct (Target.target tb) as [rb|] eqn:Hrb; cbn in Hscan;
      [| by injection Hscan as <- _].
    destruct (decide (server_Target.Name rb = nameOrId)) as [Hn|Hn].
    + destruct (Target_State env tb) as [active|er] eqn:Hst;
        [| by injection Hscan as <- _].
      destruct (bool_decide (provider ≠ "") && negb active) eqn:Hg;
        cbn in Hscan; injection Hscan as <- _; [| done].
      simpl. destruct (decide (b = a)) as [->|Hne].
      * rewrite Ha in Hb. injection Hb as <-. rewrite Hact in Hst.
        injection Hst as <-. by rewrite andb_false_r in Hg.
      * by rewrite lookup_insert_ne.
    + destruct (decide (server_Target.ResourceId rb = nameOrId)).
      * by injection Hscan as <- _.
      * by apply IH.
Qed.

(** A load leaves the Targets already there as they are. *)
Lemma LoadTarget_heap (env : Collaborators) (topts : list TargetOption)
    (s s' : Store) (out : outcome (result addr)) (a : addr) (t : Target.t) :
  LoadTarget env topts s = (s', out) →
  heap s !! a = Some t → heap s' !! a = Some t.
Proof.
  unfold LoadTarget. destruct (apply_options topts new_shell None) as [t0 err].
  destruct err as [e|]; run; [by intros [= <- _] |].
  assert (He : heap (ensure_dir env t0 s).1 = heap s).
  { unfold ensure_dir. destruct (Target.dir t0); run; [done |].
    destruct (Target.target t0); cbn; [| done].
    by destruct (dir_Target env _ _). }
  destruct (ensure_dir env t0 s) as [s1 o]. cbn in He.
  destruct o as [[t1|e1]| |]; try by intros [= <- _]; rewrite He.
  destruct (Target.target t1) as [r|]; cbn; [| by intros [= <- _]; rewrite He].
  destruct (targets s1 !! server_Target.ResourceId r); cbn;
    [by intros [= <- _]; rewrite He |].
  intros [= <- _] Ha. cbn.
  assert (Hfresh : fresh (dom (heap s1)) ≠ a).
  { intros Hf. rewrite <- He in Ha. apply (is_fresh (dom (heap s1))).
    rewrite Hf. apply elem_of_dom. by eexists. }
  rewrite lookup_alter_ne by done. rewrite lookup_insert_ne by done.
  by rewrite He.
Qed.

Lemma Target_scan_state_error (env : Collaborators) (k : string) (a : addr)
    (rest : list (string * addr)) (nameOrId provider : string) (s : Store)
    (t : Target.t) (r : server_Target.t) (err : error) :
  heap s !! a = Some t → Target.target t = Some r →
  server_Target.Name r = nameOrId → Target_State env t = Err err →
  Target_scan env ((k, a) :: rest) nameOrId provider s
  = (s, Returns (Some (Err err))).
Proof.
  intros Ht Hr Hn Hst. cbn [Target_scan]. run. rewrite Ht. cbn. rewrite Hr. cbn.
  rewrite decide_True by done. by rewrite Hst.
Qed.

(** What [Target] does once the scan has answered. *)
Lemma Target_scan_answer (env : Collaborators) (nameOrId provider : string)
    (s s' : Store) (x : result addr) :
  targets s !! nameOrId = None →
  Target_scan env (range_targets env (targets s)) nameOrId provider s
  = (s', Returns (Some x)) →
  Target_ env nameOrId provider s = (s', Returns x).
Proof.
  intros Hmiss Hscan. unfold Target_. run. rewrite Hmiss, Hscan. done.
Qed.

(** C5. In [Target(nameOrId, provider)]: a hit of [nameOrId] in the target
    map is returned directly, nothing being changed; otherwise, at the first
    entry of the scan that matches, a name match overwrites the provider of
    the target exactly when [provider] is not empty and the state of the
    target is not active (and answers the error of [State] when there is
    one), while a resource-id match returns the target and changes nothing;
    and whatever the call does, a Target whose state is active is after the
    call what it was before. *)
Theorem Target_provider_guard (env : Collaborators) (nameOrId provider : string)
    (s : Store) :
  (∀ a, targets s !! nameOrId = Some a →
        Target_ env nameOrId provider s = (s, Returns (Ok a)))
  ∧ (∀ pre k a rest t r,
       targets s !! nameOrId = None →
       range_targets env (targets s) = pre ++ (k, a) :: rest →
       Forall (passed_over (heap s) nameOrId) pre →
       heap s !! a = Some t → Target.target t = Some r →
       (server_Target.Name r = nameOrId →
        (∀ active, Target_State env t = Ok active →
           Target_ env nameOrId provider s
           = (if bool_decide (provider ≠ "") && negb active
              then overwrite_provider a provider t r s else s,
              Returns (Ok a)))
        ∧ (∀ err, Target_State env t = Err err →
             Target_ env nameOrId provider s = (s, Returns (Err err))))
       ∧ (server_Target.Name r ≠ nameOrId →
          server_Target.ResourceId r = nameOrId →
          Target_ env nameOrId provider s = (s, Returns (Ok a))))
  ∧ (∀ s' out a t,
       Target_ env nameOrId provider s = (s', out) →
       heap s !! a = Some t → Target_State env t = Ok true →
       heap s' !! a = Some t).
Proof.
  split; [| split].
  - intros a Hhit. unfold Target_. run. by rewrite Hhit.
  - intros pre k a rest t r Hmiss Hrange Hpre Ht Hr. split; [intros Hn; split |].
    + intros active Hst. apply Target_scan_answer; [done |].
      rewrite Hrange, Target_scan_skip by done.
      by apply (Target_scan_name env k a rest nameOrId provider s t r active).
    + intros err Hst. apply Target_scan_answer; [done |].
      rewrite Hrange, Target_scan_skip by done.
      by apply (Target_scan_state_error env k a rest nameOrId provider s t r).
    + intros Hn Hi. apply Target_scan_answer; [done |].
      rewrite Hrange, Target_scan_skip by done.
      by apply (Target_scan_id env k a rest nameOrId provider s t r).
  - intros s' out a t. unfold Target_. run.
    destruct (targets s !! nameOrId) as [b|]; [by intros [= <- _] |].
    destruct (Target_scan env _ nameOrId provider s) as [s1 o] eqn:Hscan.
    intros Hrun Ha Hact.
    pose proof (Target_scan_active env _ _ _ _ _ _ a t Hscan Ha Hact) as Ha1.
    destruct o as [[x|]| |]; try by injection Hrun as <- _.
    revert Hrun. unfold Ref. run.
    destruct (project s1) as [p|]; cbn; [| by intros [= <- _]].
    intros Hrun. by apply (LoadTarget_heap env _ _ _ _ a t Hrun).
Qed.

(** * Target ids and names *)

Lemma foldl_snoc_map {A B : Type} (f : A → B) (l : list A) (acc : list B) :
  foldl (λ acc x, acc ++ [f x]) acc l = acc ++ map f l.
Proof.
  revert acc. induction l as [|x l IH]; intros acc; simpl.
  - by rewrite app_nil_r.
  - rewrite IH. by rewrite <- app_assoc.
Qed.

Lemma TargetIds_refs (s : Store) (r : server_Project.t) :
  project s = Some r →
  TargetIds s
  = (s, Returns (Ok (map Ref_Target.ResourceId (server_Project.Targets r)))).
Proof.
  intros Hp. unfold TargetIds. run. rewrite Hp. cbn.
  by rewrite foldl_snoc_map.
Qed.

Lemma TargetNames_refs (s : Store) (r : server_Project.t) :
  project s = Some r →
  TargetNames s
  = (s, Returns (Ok (map Ref_Target.Name (server_Project.Targets r)))).
Proof.
  intros Hp. unfold TargetNames. run. rewrite Hp. cbn.
  by rewrite foldl_snoc_map.
Qed.

(** C8. [TargetIds] and [TargetNames] read the reference list of the
    project record and nothing else, whatever the in-memory target map
    holds: they answer the resource ids and the names of that list, in its
    order.  After the [n] references id-0/target-0 .. id-(n-1)/target-(n-1)
    have been recorded in it, each answers exactly [n] entries, those
    strings. *)
Theorem TargetIds_TargetNames_recorded (s : Store) (r : server_Project.t) :
  project s = Some r →
  (TargetIds s
   = (s, Returns (Ok (map Ref_Target.ResourceId (server_Project.Targets r))))
   ∧ TargetNames s
     = (s, Returns (Ok (map Ref_Target.Name (server_Project.Targets r)))))
  ∧ (∀ n : nat, server_Project.Targets r = recorded n →
       ∃ ids names,
         TargetIds s = (s, Returns (Ok ids))
         ∧ TargetNames s = (s, Returns (Ok names))
         ∧ ids = map (λ i, "id-" +:+ itoa i) (seq 0 n)
         ∧ names = map (λ i, "target-" +:+ itoa i) (seq 0 n)
         ∧ List.length ids = n ∧ List.length names = n).
Proof.
  intros Hp. split; [split; [by apply TargetIds_refs | by apply TargetNames_refs] |].
  intros n Hrec. eexists _, _.
  split; [by apply TargetIds_refs |]. split; [by apply TargetNames_refs |].
  rewrite Hrec. unfold recorded. rewrite !map_map. cbn.
  repeat split; by rewrite ?length_map, ?length_seq.
Qed.

(** * Saving the project *)

(** C9 fails on the code: when [UpsertProject] answers an error, [Save]
    still reads the response.  With no response (a nil pointer) the call
    panics; with a response, its record, absent or not, replaces the record
    of the project, and only then is the error returned. *)
Theorem Save_upsert_error (env : Collaborators) (s : Store)
    (r : server_Project.t) (err : error) :
  project s = Some r →
  (UpsertProject env (log s) (Some r) = (None, Some err) →
   Save env s = (add_log [EvUpsertProject (Some r)] s, Panics))
  ∧ (∀ response,
       UpsertProject env (log s) (Some r) = (Some response, Some err) →
       Save env s
       = (set_project response (add_log [EvUpsertProject (Some r)] s),
          Returns (Some err))).
Proof.
  intros Hp. split.
  - intros Hup. unfold Save. run. rewrite Hp. cbn. by rewrite Hup.
  - intros response Hup. unfold Save. run. rewrite Hp. cbn. by rewrite Hup.
Qed.

(** * Initialising the targets *)

Lemma add_log_nil (s : Store) : add_log [] s = s.
Proof. destruct s. unfold add_log. cbn. by rewrite app_nil_r. Qed.

Lemma add_log_app (es1 es2 : list Event) (s : Store) :
  add_log es2 (add_log es1 s) = add_log (es1 ++ es2) s.
Proof. unfold add_log. cbn. by rewrite app_assoc. Qed.

(** The loop over a prefix of the machine configurations whose upserts all
    succeed: the upserts are made and the loop goes on with the rest. *)
Lemma upsert_loop_app (env : Collaborators) (r : server_Project.t)
    (pre rest : list (option Vagrantfile_MachineConfig.t)) (updated : bool)
    (s : Store) :
  project s = Some r →
  upserts_succeed env (ref_of r) (log s) pre →
  upsert_loop env (pre ++ rest) updated s
  = upsert_loop env rest (updated || any_config pre)
      (add_log (upserts (ref_of r) pre) s).
Proof.
  revert updated s.
  induction pre as [|[t|] pre IH]; intros updated s Hp Hok.
  - cbn. by rewrite add_log_nil, orb_false_r.
  - cbn [app upsert_loop]. unfold Ref. run. rewrite Hp. cbn.
    fold (ref_of r). fold (upsert_request (ref_of r) t).
    pose proof (Hok [] t pre eq_refl) as H0. cbn in H0.
    rewrite app_nil_r in H0. rewrite H0.
    change (upsert_loop env (pre ++ rest) true
              (add_log [EvUpsertTarget (upsert_request (ref_of r) t)] s)
            = upsert_loop env rest (updated || any_config (Some t :: pre))
                (add_log (upserts (ref_of r) (Some t :: pre)) s)).
    rewrite IH; [| done |].
    + rewrite add_log_app. cbn. by rewrite orb_true_r.
    + intros pre1 t1 rest1 E. cbn. rewrite <- app_assoc.
      apply (Hok (Some t :: pre1) t1 rest1). by rewrite E.
  - cbn [app upsert_loop]. rewrite IH; [done | done |].
    intros pre1 t1 rest1 E. apply (Hok (None :: pre1) t1 rest1). by rewrite E.
Qed.

Lemma upsert_loop_all (env : Collaborators) (r : server_Project.t)
    (configs : list (option Vagrantfile_MachineConfig.t)) (s : Store) :
  project s = Some r →
  upserts_succeed env (ref_of r) (log s) configs →
  upsert_loop env configs false s
  = (add_log (upserts (ref_of r) configs) s, Returns (inr (any_config configs))).
Proof.
  intros Hp Hok. rewrite <- (app_nil_r configs) at 1.
  by rewrite (upsert_loop_app env r configs [] false s Hp Hok).
Qed.

Lemma upsert_loop_fails (env : Collaborators) (r : server_Project.t)
    (pre rest : list (option Vagrantfile_MachineConfig.t))
    (t : Vagrantfile_MachineConfig.t) (err : error) (s : Store) :
  project s = Some r →
  upserts_succeed env (ref_of r) (log s) pre →
  UpsertTarget env (log s ++ upserts (ref_of r) pre)
    (upsert_request (ref_of r) t) = Some err →
  upsert_loop env (pre ++ Some t :: rest) false s
  = (add_log (upserts (ref_of r) pre
              ++ [EvUpsertTarget (upsert_request (ref_of r) t)]) s,
     Returns (inl err)).
Proof.
  intros Hp Hok Hfail. rewrite (upsert_loop_app env r pre _ false s Hp Hok).
  cbn [upsert_loop]. unfold Ref. run. unfold add_log. cbn. rewrite Hp. cbn.
  fold (ref_of r). fold (upsert_request (ref_of r) t). rewrite Hfail.
  by rewrite <- app_assoc.
Qed.

Lemma refreshProject_run (env : Collaborators) (s : Store)
    (r : server_Project.t) :
  project s = Some r →
  refreshProject env s
  = match FindProject env (log s) (server_Project.ResourceId r) with
    | Ok found =>
        (set_project found
           (add_log [EvFindProject (server_Project.ResourceId r)] s),
         Returns None)
    | Err err =>
        (add_log [EvFindProject (server_Project.ResourceId r)] s,
         Returns (Some err))
    end.
Proof.
  intros Hp. unfold refreshProject. run. rewrite Hp. cbn.
  by destruct (FindProject env (log s) (server_Project.ResourceId r)).
Qed.

(** C6 (amended). [InitTargets] upserts a Target record for each machine
    configuration entry that is not nil, in order, and is fail-fast: at the
    first upsert that fails it returns that error at once, with no further
    upsert and without refreshing the record of the project.  When every
    upsert succeeded and at least one was made, the record of the project
    is refreshed from the Persistence Client afterwards: it becomes the
    record found, or stays as it is when the lookup fails, the error of
    which is then returned.  Without machine configurations nothing is
    done. *)
Theorem InitTargets_fail_fast (env : Collaborators) (s : Store)
    (r : server_Project.t) :
  project s = Some r →
  (server_Project.Configuration r = None → InitTargets env s = (s, Returns None))
  ∧ (∀ c pre t rest err,
       server_Project.Configuration r = Some c →
       Vagrantfile.MachineConfigs c = pre ++ Some t :: rest →
       upserts_succeed env (ref_of r) (log s) pre →
       UpsertTarget env (log s ++ upserts (ref_of r) pre)
         (upsert_request (ref_of r) t) = Some err →
       InitTargets env s
       = (add_log (upserts (ref_of r) pre
                   ++ [EvUpsertTarget (upsert_request (ref_of r) t)]) s,
          Returns (Some err)))
  ∧ (∀ c,
       server_Project.Configuration r = Some c →
       upserts_succeed env (ref_of r) (log s) (Vagrantfile.MachineConfigs c) →
       let s1 := add_log (upserts (ref_of r) (Vagrantfile.MachineConfigs c)) s in
       InitTargets env s
       = if any_config (Vagrantfile.MachineConfigs c)
         then match FindProject env (log s1) (server_Project.ResourceId r) with
              | Ok found =>
                  (set_project found
                     (add_log [EvFindProject (server_Project.ResourceId r)] s1),
                   Returns None)
              | Err err =>
                  (add_log [EvFindProject (server_Project.ResourceId r)] s1,
                   Returns (Some err))
              end
         else (s, Returns None)).
Proof.
  intros Hp. split; [| split].
  - intros Hc. unfold InitTargets. run. rewrite Hp. cbn. by rewrite Hc.
  - intros c pre t rest err Hc Hm Hok Hfail. unfold InitTargets. run.
    rewrite Hp. cbn. rewrite Hc, Hm.
    by rewrite (upsert_loop_fails env r pre rest t err s Hp Hok Hfail).
  - intros c Hc Hok s1. unfold InitTargets. run. rewrite Hp. cbn. rewrite Hc.
    rewrite (upsert_loop_all env r _ s Hp Hok).
    destruct (any_config (Vagrantfile.MachineConfigs c)) eqn:Hany.
    + by rewrite (refreshProject_run env _ r).
    + f_equal. assert (Hnone : upserts (ref_of r) (Vagrantfile.MachineConfigs c) = []).
      { revert Hany. generalize (Vagrantfile.MachineConfigs c).
        induction l as [|[t|] l IH]; cbn; [done | done | apply IH]. }
      rewrite Hnone. apply add_log_nil.
Qed.

(** * Closing the project *)

Lemma aggregate_snoc (done : list error) (e : error) :
  Some (multierror_Append (aggregate done) e) = aggregate (done ++ [e]).
Proof.
  destruct done as [|d done]; cbn.
  - by rewrite app_nil_r.
  - rewrite map_app, concat_app. cbn. by rewrite app_nil_r, app_assoc.
Qed.

Lemma aggregate_reflects (failures : list error) (e : error) :
  e ∈ failures →
  ∃ es, aggregate failures = Some (MultiError es) ∧ ∀ x, x ∈ flatten e → x ∈ es.
Proof.
  intros Hin. destruct failures as [|d fs] eqn:E; [by apply elem_of_nil in Hin |].
  rewrite <- E in *. exists (List.concat (map flatten failures)).
  split; [by rewrite E |].
  intros x Hx. apply list_elem_of_In, in_concat. exists (flatten e).
  split; [| by apply list_elem_of_In].
  apply in_map. by apply list_elem_of_In.
Qed.

Lemma close_targets_run (env : Collaborators) (entries : list (string * addr))
    (done : list error) (s : Store) :
  Forall (λ e, is_Some (heap s !! e.2)) entries →
  close_targets env entries (aggregate done) s
  = (add_log (map (λ e, EvTargetClose e.2) entries) s,
     Returns (aggregate (done ++ target_failures env (heap s) entries))).
Proof.
  revert done s. induction entries as [|[k a] entries IH]; intros done s Hall.
  - cbn. by rewrite add_log_nil, app_nil_r.
  - apply Forall_cons in Hall as [[t Ht] Hall]. cbn in Ht.
    cbn [close_targets]. run. rewrite Ht. cbn.
    unfold target_failures. cbn [omap list_omap snd]. rewrite Ht. cbn.
    fold (target_failures env (heap s) entries).
    change (match Target_Close env a t with
            | Some cerr =>
                close_targets env entries
                  (Some (multierror_Append (aggregate done) cerr))
            | None => close_targets env entries (aggregate done)
            end (add_log [EvTargetClose a] s)
            = (add_log (EvTargetClose a :: map (λ e, EvTargetClose e.2) entries) s,
               Returns (aggregate
                          (done ++ match Target_Close env a t with
                                   | Some y => y :: target_failures env (heap s) entries
                                   | None => target_failures env (heap s) entries
                                   end)))).
    destruct (Target_Close env a t) as [cerr|].
    + rewrite aggregate_snoc, IH by done. rewrite add_log_app. cbn.
      by rewrite <- app_assoc.
    + rewrite IH by done. by rewrite add_log_app.
Qed.

Lemma run_closers_run (fs : list ProjectCloser) (done : list error) (s : Store) :
  run_closers fs (aggregate done) s
  = (add_log (map (λ f, EvCloser (closer_id f)) fs) s,
     Returns (aggregate (done ++ closer_failures fs))).
Proof.
  revert done s. induction fs as [|f fs IH]; intros done s.
  - cbn. by rewrite add_log_nil, app_nil_r.
  - cbn [run_closers]. run.
    change (match closer_err f with
            | Some cerr =>
                run_closers fs (Some (multierror_Append (aggregate done) cerr))
            | None => run_closers fs (aggregate done)
            end (add_log [EvCloser (closer_id f)] s)
            = (add_log (EvCloser (closer_id f)
                        :: map (λ f, EvCloser (closer_id f)) fs) s,
               Returns (aggregate
                          (done ++ match closer_err f with
                                   | Some y => y :: closer_failures fs
                                   | None => closer_failures fs
                                   end)))).
    destruct (closer_err f) as [cerr|].
    + rewrite aggregate_snoc, IH. rewrite add_log_app. cbn.
      by rewrite <- app_assoc.
    + rewrite IH. by rewrite add_log_app.
Qed.

(** C7. [Close] closes every loaded Target and runs every registered
    cleanup action whether or not some of them fail, returns the aggregate
    of all the failures (none when there is no failure), and removes the
    Project from the project collection of its Basis: after the call the
    collection has no entry under the name of the Project and its other
    entries are as before.  The Project has its record, every address in
    its target map is that of a Target, and the range statement visits
    the entries of the map in some order. *)
Theorem Close_attempts_everything (env : Collaborators) (s : Store)
    (r : server_Project.t) :
  project s = Some r →
  range_targets env (targets s) ≡ₚ map_to_list (targets s) →
  (∀ k a, targets s !! k = Some a → is_Some (heap s !! a)) →
  let entries := range_targets env (targets s) in
  let failures :=
    target_failures env (heap s) entries ++ closer_failures (closers s) in
  Close env s
  = (set_basis_projects
       (delete (server_Project.Name r) (basis_projects s))
       (add_log (close_events entries (closers s)) s),
     Returns (aggregate failures))
  ∧ (∀ k a, targets s !! k = Some a →
       EvTargetClose a ∈ close_events entries (closers s))
  ∧ (∀ f, f ∈ closers s →
       EvCloser (closer_id f) ∈ close_events entries (closers s))
  ∧ (∀ k a t e, targets s !! k = Some a → heap s !! a = Some t →
       Target_Close env a t = Some e → e ∈ failures)
  ∧ (∀ f e, f ∈ closers s → closer_err f = Some e → e ∈ failures)
  ∧ (∀ e, e ∈ failures →
       ∃ es, aggregate failures = Some (MultiError es)
             ∧ ∀ x, x ∈ flatten e → x ∈ es)
  ∧ (Close env s).2 = Returns (aggregate failures)
  ∧ log (Close env s).1 = log s ++ close_events entries (closers s)
  ∧ basis_projects (Close env s).1 !! server_Project.Name r = None
  ∧ (∀ n, n ≠ server_Project.Name r →
       basis_projects (Close env s).1 !! n = basis_projects s !! n)
  ∧ basis_projects (Close env s).1
    = delete (server_Project.Name r) (basis_projects s).
Proof.
  intros Hp Hperm Hheap entries failures.
  assert (Hentry : ∀ k a, targets s !! k = Some a → (k, a) ∈ entries).
  { intros k a Hk. unfold entries. rewrite Hperm.
    by apply elem_of_map_to_list. }
  assert (Hall : Forall (λ e, is_Some (heap s !! e.2)) entries).
  { apply Forall_forall. intros [k a] Hin. unfold entries in Hin.
    rewrite Hperm in Hin. apply elem_of_map_to_list in Hin. by apply (Hheap k). }
  assert (Hclose : Close env s
                   = (set_basis_projects
                        (delete (server_Project.Name r) (basis_projects s))
                        (add_log (close_events entries (closers s)) s),
                      Returns (aggregate failures))).
  { pose proof (close_targets_run env entries [] s Hall) as Hct.
    change (aggregate []) with (@None error) in Hct. cbn [app] in Hct.
    unfold Close, Name. run. fold entries. rewrite Hct.
    change (closers (add_log _ s)) with (closers s).
    rewrite (run_closers_run (closers s) _ _). cbn. rewrite Hp. cbn.
    unfold close_events, set_basis_projects, add_log. cbn.
    by rewrite <- app_assoc. }
  split; [exact Hclose |].
  split.
  { intros k a Hk. unfold close_events. apply elem_of_app. left.
    apply (list_elem_of_fmap_2 (λ e : string * addr, EvTargetClose e.2) _ (k, a)).
    by apply Hentry. }
  split.
  { intros f Hf. unfold close_events. apply elem_of_app. right.
    by apply (list_elem_of_fmap_2 (λ f, EvCloser (closer_id f))). }
  split.
  { intros k a t e Hk Ht He. unfold failures. apply elem_of_app. left.
    unfold target_failures. apply list_elem_of_omap. exists (k, a).
    split; [by apply Hentry |]. cbn. by rewrite Ht. }
  split.
  { intros f e Hf He. unfold failures. apply elem_of_app. right.
    unfold closer_failures. apply list_elem_of_omap. by exists f. }
  split; [apply aggregate_reflects |].
  rewrite Hclose.
  split; [reflexivity |]. split; [reflexivity |].
  split; [apply lookup_delete_eq |].
  split; [intros n Hn; by apply lookup_delete_ne | reflexivity].
Qed.

(** * The Factory *)

Ltac frun :=
  repeat (progress (unfold Factory.with_deferred_Unlock, Factory.Lock,
                      Factory.Unlock, Factory.emit, Factory.Basis_Close,
                      Factory.Basis_Closer, mbind, M_bind, mret, M_ret, gets,
                      modify, deref, panic, block; cbn [fst snd])).

Lemma add_trace_app (es1 es2 : list FactoryEvent) (f : Factory.t) :
  add_trace es2 (add_trace es1 f) = add_trace (es1 ++ es2) f.
Proof. unfold add_trace. cbn. by rewrite app_assoc. Qed.

Lemma add_trace_nil (f : Factory.t) : add_trace [] f = f.
Proof. destruct f. unfold add_trace. cbn. by rewrite app_nil_r. Qed.

(** The cleanup actions of a candidate only show in the trace. *)
Lemma run_closers_candidate (b : Basis.t) (cs : list (nat * option error)) (err : option error)
    (f : Factory.t) :
  ∃ err',
    Factory.run_closers b (map (λ c, CandidateCloser c.1 c.2) cs) err f
    = (add_trace (map (λ x, EvBasisCloser x.1) cs) f, Returns err').
Proof.
  revert err f. induction cs as [|[id e] cs IH]; intros err f.
  - exists err. cbn. by rewrite add_trace_nil.
  - cbn [map Factory.run_closers Factory.run_closer fst snd]. frun.
    change (Factory.run_closers b (map (λ c, CandidateCloser c.1 c.2) cs) ?x
              ?g)
      with (Factory.run_closers b (map (λ c, CandidateCloser c.1 c.2) cs) x
              (add_trace [EvBasisCloser id] f)).
    destruct (IH (match e with
                  | Some e0 => Some (multierror_Append err e0)
                  | None => err
                  end) (add_trace [EvBasisCloser id] f)) as [err' ->].
    exists err'. by rewrite add_trace_app.
Qed.

Section New_facts.
Variable NewBasis : list FactoryEvent → list BasisOption → result Candidate.t.

(** A hit of the first lookup: lock, look up, unlock. *)
Lemma New_hit (f : Factory.t) (name : string) (opts : list nat) (b : addr) :
  Factory.m f = false → name ≠ "" → Factory.registered f !! name = Some b →
  Factory.New NewBasis name opts f
  = (add_trace [EvLock; EvUnlock] f, Returns (Ok b)).
Proof.
  intros Hm Hname Hreg. unfold Factory.New. frun. rewrite Hm. frun.
  rewrite decide_True by done. cbn. rewrite Hreg. cbn.
  destruct f as [reg m bs tr]. cbn in *. subst m. unfold add_trace. cbn.
  by rewrite <- app_assoc.
Qed.

(** A miss of the first lookup and a construction that fails. *)
Lemma New_construction_fails (f : Factory.t) (name : string) (opts : list nat)
    (err : error) :
  Factory.m f = false → first_lookup_misses f name →
  NewBasis (Factory.trace f ++ [EvLock; EvSub name]) (basis_options name opts)
  = Err err →
  Factory.New NewBasis name opts f
  = (add_trace [EvLock; EvSub name; EvNewBasis (basis_options name opts);
                EvUnlock] f,
     Returns (Err err)).
Proof.
  intros Hm Hmiss Hnew. unfold Factory.New. frun. rewrite Hm. frun.
  assert (Hlook : (if decide (name ≠ "") then Factory.registered f !! name
                   else None) = None).
  { destruct Hmiss as [->|Hnone]; [done |]. by destruct (decide (name ≠ "")). }
  cbn. rewrite Hlook. cbn. fold (basis_options name opts).
  rewrite <- app_assoc. cbn. rewrite Hnew. cbn.
  destruct f as [reg m bs tr]. cbn in *. subst m. unfold add_trace. cbn.
  by rewrite <- !app_assoc.
Qed.

(** A miss of the first lookup, a construction that succeeds, and a name
    that is registered: the candidate is closed and the registered Basis is
    the answer. *)
Lemma New_candidate_discarded (f : Factory.t) (name : string) (opts : list nat)
    (c : Candidate.t) (w : addr) :
  Factory.m f = false → first_lookup_misses f name →
  NewBasis (Factory.trace f ++ [EvLock; EvSub name]) (basis_options name opts)
  = Ok c →
  Factory.registered f !! Candidate.name c = Some w →
  let b := fresh (dom (Factory.bases f)) in
  Factory.New NewBasis name opts f
  = (Factory.set_bases (<[b := Basis.of_candidate c]> (Factory.bases f))
       (add_trace ([EvLock; EvSub name; EvNewBasis (basis_options name opts)]
                   ++ candidate_close_events b c ++ [EvUnlock]) f),
     Returns (Ok w)).
Proof.
  intros Hm Hmiss Hnew Hreg b. unfold Factory.New. frun. rewrite Hm. frun.
  assert (Hlook : (if decide (name ≠ "") then Factory.registered f !! name
                   else None) = None).
  { destruct Hmiss as [->|Hnone]; [done |]. by destruct (decide (name ≠ "")). }
  cbn. rewrite Hlook. cbn. fold (basis_options name opts).
  rewrite <- app_assoc. cbn. rewrite Hnew. cbn. rewrite Hreg. cbn.
  fold b. rewrite lookup_insert_eq. cbn.
  match goal with
  | |- context [Factory.run_closers ?x ?cs ?e ?g] =>
      destruct (run_closers_candidate x (Candidate.closers c) e g) as [err' Hrun];
      change (Factory.run_closers x cs e g)
        with (Factory.run_closers x
                (map (λ c, CandidateCloser c.1 c.2) (Candidate.closers c)) e g);
      rewrite Hrun
  end.
  cbn. destruct f as [reg m bs tr]. cbn in *. subst m.
  unfold add_trace, Factory.set_bases, candidate_close_events. cbn.
  by rewrite <- !app_assoc.
Qed.

(** A miss of the first lookup, a construction that succeeds, and a name
    that is free: the candidate is registered with its two cleanup actions. *)
Lemma New_registers (f : Factory.t) (name : string) (opts : list nat)
    (c : Candidate.t) :
  Factory.m f = false → first_lookup_misses f name →
  NewBasis (Factory.trace f ++ [EvLock; EvSub name]) (basis_options name opts)
  = Ok c →
  Factory.registered f !! Candidate.name c = None →
  let b := fresh (dom (Factory.bases f)) in
  Factory.New NewBasis name opts f
  = (Factory.set_registered (<[Candidate.name c := b]> (Factory.registered f))
       (Factory.set_bases
          (alter (Basis.Closer (ClosePlugins (Sub name))) b
             (alter (Basis.Closer Deregister) b
                (<[b := Basis.of_candidate c]> (Factory.bases f))))
          (add_trace [EvLock; EvSub name; EvNewBasis (basis_options name opts);
                      EvUnlock] f)),
     Returns (Ok b)).
Proof.
  intros Hm Hmiss Hnew Hreg b. unfold Factory.New. frun. rewrite Hm. frun.
  assert (Hlook : (if decide (name ≠ "") then Factory.registered f !! name
                   else None) = None).
  { destruct Hmiss as [->|Hnone]; [done |]. by destruct (decide (name ≠ "")). }
  cbn. rewrite Hlook. cbn. fold (basis_options name opts).
  rewrite <- app_assoc. cbn. rewrite Hnew. cbn. rewrite Hreg. cbn.
  fold b. destruct f as [reg m bs tr]. cbn in *. subst m.
  unfold add_trace, Factory.set_bases, Factory.set_registered. cbn.
  by rewrite <- !app_assoc.
Qed.

Lemma constructs_locked_held (mid rest : list FactoryEvent) :
  Forall not_mutex_event mid →
  Factory.constructs_locked true (mid ++ rest)
  = Factory.constructs_locked true rest.
Proof.
  induction 1 as [|e mid [Hl Hu] _ IH]; [done |].
  destruct e; cbn; done.
Qed.

Lemma constructs_unlocked_held (opts : list BasisOption)
    (mid rest : list FactoryEvent) :
  Forall not_mutex_event mid → EvNewBasis opts ∈ mid →
  Factory.constructs_unlocked true (mid ++ rest) = false.
Proof.
  induction 1 as [|e mid [Hl Hu] _ IH]; intros Hin.
  - by apply elem_of_nil in Hin.
  - apply elem_of_cons in Hin as [<-|Hin]; [done |].
    destruct e; cbn; try done; by apply IH.
Qed.

(** Every call of [New] that finds the mutex free takes it first and
    releases it last; what it does in between is described by [mid]. *)
Lemma New_trace (f : Factory.t) (name : string) (opts : list nat) :
  Factory.m f = false →
  ∃ mid,
    Factory.trace (Factory.New NewBasis name opts f).1
    = Factory.trace f ++ EvLock :: mid ++ [EvUnlock]
    ∧ Forall not_mutex_event mid
    ∧ (first_lookup_misses f name →
       EvNewBasis (basis_options name opts) ∈ mid)
    ∧ (¬ first_lookup_misses f name → mid = []).
Proof.
  intros Hm.
  assert (Hev : ∀ es, Forall not_mutex_event
                        (EvSub name :: EvNewBasis (basis_options name opts) :: es)
                      ↔ Forall not_mutex_event es).
  { intros es. rewrite !Forall_cons. unfold not_mutex_event.
    split; [by intros (_ & _ & ?) | by intros ?]. }
  destruct (decide (first_lookup_misses f name)) as [Hmiss|Hhit].
  - destruct (NewBasis (Factory.trace f ++ [EvLock; EvSub name])
                (basis_options name opts)) as [c|err] eqn:Hnew.
    + destruct (Factory.registered f !! Candidate.name c) as [w|] eqn:Hreg.
      * rewrite (New_candidate_discarded f name opts c w) by done.
        eexists (EvSub name :: EvNewBasis _ :: candidate_close_events _ c).
        split; [done |]. split; [| split].
        -- apply Hev. unfold candidate_close_events. apply Forall_cons.
           split; [done |]. apply Forall_fmap, Forall_forall. done.
        -- intros _. apply list_elem_of_further, list_elem_of_here.
        -- done.
      * rewrite (New_registers f name opts c) by done.
        exists [EvSub name; EvNewBasis (basis_options name opts)].
        split; [done |]. split; [by apply Hev |].
        split; [intros _; apply list_elem_of_further, list_elem_of_here | done].
    + rewrite (New_construction_fails f name opts err) by done.
      exists [EvSub name; EvNewBasis (basis_options name opts)].
      split; [done |]. split; [by apply Hev |].
        split; [intros _; apply list_elem_of_further, list_elem_of_here | done].
  - assert (Hname : name ≠ "") by (intros ->; apply Hhit; by left).
    destruct (Factory.registered f !! name) as [b|] eqn:Hreg;
      [| exfalso; apply Hhit; by right].
    rewrite (New_hit f name opts b) by done.
    exists []. split; [done |]. split; [done |]. split; [done | done].
Qed.

End New_facts.

(** The mutex of the Factory: [Lock] on a free mutex takes it, a second
    [Lock] then waits and changes nothing, and [Unlock] frees it. *)
Lemma Lock_excludes (f : Factory.t) :
  Factory.m f = false →
  (Factory.Lock f).2 = Returns tt
  ∧ Factory.m (Factory.Lock f).1 = true
  ∧ Factory.Lock (Factory.Lock f).1 = ((Factory.Lock f).1, Blocks)
  ∧ Factory.m (Factory.Unlock (Factory.Lock f).1).1 = false
  ∧ Factory.trace (Factory.Unlock (Factory.Lock f).1).1
    = Factory.trace f ++ [EvLock; EvUnlock].
Proof.
  intros Hm. unfold Factory.Lock, Factory.Unlock. frun. rewrite Hm. frun.
  repeat split. cbn. by rewrite <- app_assoc.
Qed.

(** Closing a Basis that [New] registered, the mutex being free, runs the
    cleanup actions of the candidate and then the two of [New]: the name is
    taken out of the registry under the lock and the child plugin manager is
    closed. *)
Lemma Basis_Close_registered (f : Factory.t) (a : addr) (c : Candidate.t)
    (pm : PluginManager) :
  Factory.m f = false →
  Factory.bases f !! a
  = Some (Basis.Closer (ClosePlugins pm)
            (Basis.Closer Deregister (Basis.of_candidate c))) →
  Factory.registered (Factory.Basis_Close a f).1
  = delete (Candidate.name c) (Factory.registered f)
  ∧ Factory.m (Factory.Basis_Close a f).1 = false
  ∧ Factory.trace (Factory.Basis_Close a f).1
    = Factory.trace f
      ++ candidate_close_events a c
      ++ [EvLock; EvUnlock; EvPluginsClose pm].
Proof.
  intros Hm Hb.
  unfold Factory.Basis_Close. frun. rewrite Hb.
  cbn [deref Basis.closers Basis.Closer Basis.of_candidate Basis.name].
  frun. rewrite <- !app_assoc.
  set (g := {| Factory.registered := Factory.registered f;
               Factory.m := Factory.m f; Factory.bases := Factory.bases f;
               Factory.trace := Factory.trace f ++ [EvBasisClose a] |}).
  assert (Hgo : ∀ (b : Basis.t) (cs : list (nat * option error)) e h,
             Basis.name b = Candidate.name c → Factory.m h = false →
             ∃ h', (Factory.run_closers b
                      (map (λ c, CandidateCloser c.1 c.2) cs
                       ++ [Deregister; ClosePlugins pm]) e h).1 = h'
                   ∧ Factory.registered h'
                     = delete (Candidate.name c) (Factory.registered h)
                   ∧ Factory.m h' = false
                   ∧ Factory.trace h'
                     = Factory.trace h ++ map (λ x, EvBasisCloser x.1) cs
                       ++ [EvLock; EvUnlock; EvPluginsClose pm]).
  { intros b cs. induction cs as [|[id e0] cs IH]; intros e h Hn Hh.
    - eexists. split; [reflexivity |].
      cbn [map app Factory.run_closers Factory.run_closer]. frun.
      rewrite Hh. frun. rewrite Hn. cbn. rewrite <- !app_assoc. done.
    - cbn [map app Factory.run_closers Factory.run_closer fst snd]. frun.
      match goal with
      | |- context [Factory.run_closers b ?l ?x ?h0] =>
          destruct (IH x h0 Hn Hh) as (h' & <- & Hr & Hm' & Ht)
      end.
      eexists. split; [reflexivity |]. rewrite Hr, Hm', Ht. cbn.
      by rewrite <- !app_assoc. }
  destruct (Hgo (Basis.Closer (ClosePlugins pm)
                   (Basis.Closer Deregister (Basis.of_candidate c)))
              (Candidate.closers c) None g eq_refl Hm)
    as (h' & Hrun & Hr & Hm' & Ht).
  change ([Deregister] ++ [ClosePlugins pm]) with [Deregister; ClosePlugins pm].
  rewrite Hrun, Hr, Hm', Ht. unfold candidate_close_events. cbn.
  by rewrite <- !app_assoc.
Qed.

(** C4. A call of [New] with a name that is not empty and is registered
    returns the registered Basis at once: the registry and the Basis
    objects are as before, and the call only took and released the mutex;
    no plugin manager was made, [NewBasis] was not called, so the options
    of the call were applied to nothing. *)
Theorem New_registered_name_returned
    (NewBasis : list FactoryEvent → list BasisOption → result Candidate.t)
    (f : Factory.t) (name : string) (opts : list nat) (b : addr) :
  Factory.m f = false → name ≠ "" → Factory.registered f !! name = Some b →
  ∃ f', Factory.New NewBasis name opts f = (f', Returns (Ok b))
        ∧ Factory.registered f' = Factory.registered f
        ∧ Factory.bases f' = Factory.bases f
        ∧ Factory.trace f' = Factory.trace f ++ [EvLock; EvUnlock].
Proof.
  intros Hm Hname Hreg. eexists. split; [by apply New_hit |]. done.
Qed.

(** C3. In a call of [New] that gets to construct a Basis: if the
    construction fails, its error is returned and the registry is as
    before; if it succeeds and the resolved name of the candidate is in the
    registry, the candidate is closed (its cleanup actions run) and is not
    registered, and the Basis registered under that name is returned, the
    registry being as before: no entry is replaced, and no entry is the
    candidate. *)
Theorem New_failure_and_discard
    (NewBasis : list FactoryEvent → list BasisOption → result Candidate.t)
    (f : Factory.t) (name : string) (opts : list nat) :
  Factory.m f = false → first_lookup_misses f name →
  (∀ err,
     NewBasis (Factory.trace f ++ [EvLock; EvSub name]) (basis_options name opts)
     = Err err →
     ∃ f', Factory.New NewBasis name opts f = (f', Returns (Err err))
           ∧ Factory.registered f' = Factory.registered f
           ∧ Factory.bases f' = Factory.bases f)
  ∧ (∀ c w,
       NewBasis (Factory.trace f ++ [EvLock; EvSub name]) (basis_options name opts)
       = Ok c →
       Factory.registered f !! Candidate.name c = Some w →
       let b := fresh (dom (Factory.bases f)) in
       ∃ f', Factory.New NewBasis name opts f = (f', Returns (Ok w))
             ∧ Factory.registered f' = Factory.registered f
             ∧ Factory.trace f'
               = Factory.trace f
                 ++ [EvLock; EvSub name; EvNewBasis (basis_options name opts)]
                 ++ candidate_close_events b c ++ [EvUnlock]
             ∧ ((∀ n a, Factory.registered f !! n = Some a →
                        is_Some (Factory.bases f !! a)) →
                ∀ n, Factory.registered f' !! n ≠ Some b)).
Proof.
  intros Hm Hmiss. split.
  - intros err Hnew. eexists.
    split; [by apply New_construction_fails |]. done.
  - intros c w Hnew Hreg b. eexists.
    split; [by apply New_candidate_discarded |].
    split; [done |]. split; [done |].
    cbn. intros Hwf n Hn. destruct (Hwf n b Hn) as [x Hx].
    apply (is_fresh (dom (Factory.bases f))). apply elem_of_dom. by eexists.
Qed.

(** C10 (amended). A call of [New] takes the registry lock first and
    releases it last, when it returns; in between it neither releases nor
    takes it again.  So the lock is held across the registry reads and
    writes and also across the construction of the candidate Basis, in
    which the options are applied: whenever the first lookup misses,
    [NewBasis] is called while the lock is held. *)
Theorem New_constructs_under_lock
    (NewBasis : list FactoryEvent → list BasisOption → result Candidate.t)
    (f : Factory.t) (name : string) (opts : list nat) :
  Factory.m f = false →
  ∃ mid,
    Factory.trace (Factory.New NewBasis name opts f).1
    = Factory.trace f ++ EvLock :: mid ++ [EvUnlock]
    ∧ Forall not_mutex_event mid
    ∧ (first_lookup_misses f name →
       EvNewBasis (basis_options name opts) ∈ mid)
    ∧ Factory.constructs_locked false (EvLock :: mid ++ [EvUnlock]) = true
    ∧ (first_lookup_misses f name →
       Factory.constructs_unlocked false (EvLock :: mid ++ [EvUnlock]) = false).
Proof.
  intros Hm. destruct (New_trace NewBasis f name opts Hm)
    as (mid & Htr & Hmid & Hnew & _).
  exists mid. split; [done |]. split; [done |]. split; [done |]. split.
  - cbn. by rewrite constructs_locked_held.
  - intros Hmiss. cbn.
    by apply (constructs_unlocked_held (basis_options name opts)), Hnew.
Qed.

(** * The properties at the sample inputs *)


Lemma LoadTarget_idempotent_witness :
  ∃ s', LoadTarget (Sample.collaborators true true)
          [Sample.with_record Sample.web] (Sample.store [] [])
        = (s', Returns (Ok 1))
        ∧ targets s' = targets (Sample.store [] [])
        ∧ heap s' = heap (Sample.store [] []).
Proof.
  apply (proj1 (LoadTarget_idempotent (Sample.collaborators true true))
           (Sample.store [] []) [Sample.with_record Sample.web]
           (Target.with_target Sample.web new_shell) Sample.web 1).
  - split; reflexivity.
  - intros _. eexists. reflexivity.
  - apply lookup_singleton_eq.
Defined.

(** C2 as stated fails: the resource id id-1 is resolved and registered,
    but the data directory of the shell cannot be made, and [LoadTarget]
    returns that error, not the registered instance. *)
Lemma LoadTarget_registered_dir_fails :
  resolves [Sample.with_record Sample.web]
    (Target.with_target Sample.web new_shell) Sample.web
  ∧ targets (Sample.store [] []) !! server_Target.ResourceId Sample.web = Some 1
  ∧ LoadTarget (Sample.collaborators false true)
      [Sample.with_record Sample.web] (Sample.store [] [])
    = (add_log [EvDataDir "web"] (Sample.store [] []),
       Returns (Err Sample.mkdir_failed)).
Proof.
  split; [split; reflexivity |]. split; [apply lookup_singleton_eq |].
  reflexivity.
Qed.

Lemma Target_provider_guard_witness :
  Target_ (Sample.collaborators true true) "web" "virtualbox" (Sample.store [] [])
  = (overwrite_provider 1 "virtualbox" (Sample.loaded Sample.web) Sample.web
       (Sample.store [] []),
     Returns (Ok 1)).
Proof.
  destruct (proj1 (proj2 (Target_provider_guard (Sample.collaborators true true)
                            "web" "virtualbox" (Sample.store [] [])))
              [] "id-1" 1 [] (Sample.loaded Sample.web) Sample.web)
    as [Hname _].
  - by apply lookup_singleton_ne.
  - apply map_to_list_singleton.
  - constructor.
  - apply lookup_singleton_eq.
  - reflexivity.
  - destruct (Hname eq_refl) as [Hstate _]. exact (Hstate false eq_refl).
Defined.

Lemma TargetIds_TargetNames_recorded_witness :
  TargetIds (Sample.store (recorded 3) [])
  = (Sample.store (recorded 3) [], Returns (Ok ["id-0"; "id-1"; "id-2"]))
  ∧ TargetNames (Sample.store (recorded 3) [])
    = (Sample.store (recorded 3) [],
       Returns (Ok ["target-0"; "target-1"; "target-2"])).
Proof.
  destruct (proj2 (TargetIds_TargetNames_recorded (Sample.store (recorded 3) [])
                     (Sample.record (recorded 3) []) eq_refl) 3 eq_refl)
    as (ids & names & Hids & Hnames & -> & -> & _).
  split; [exact Hids | exact Hnames].
Defined.

Lemma Save_upsert_error_witness :
  Save (Sample.collaborators true false) (Sample.store [] [])
  = (add_log [EvUpsertProject (Some (Sample.record [] []))] (Sample.store [] []),
     Panics).
Proof.
  apply (proj1 (Save_upsert_error (Sample.collaborators true false)
                  (Sample.store [] []) (Sample.record [] [])
                  Sample.upsert_failed eq_refl)).
  reflexivity.
Defined.

Lemma InitTargets_fail_fast_witness :
  InitTargets (Sample.collaborators true true) (Sample.store [] Sample.web_db)
  = (add_log
       [EvUpsertTarget
          (upsert_request (ref_of (Sample.record [] Sample.web_db))
             (Sample.machine "web" []));
        EvUpsertTarget
          (upsert_request (ref_of (Sample.record [] Sample.web_db))
             (Sample.machine "db" []))]
       (Sample.store [] Sample.web_db),
     Returns (Some Sample.upsert_failed)).
Proof.
  apply (proj1 (proj2 (InitTargets_fail_fast (Sample.collaborators true true)
                         (Sample.store [] Sample.web_db)
                         (Sample.record [] Sample.web_db) eq_refl))
           _ [Some (Sample.machine "web" [])] (Sample.machine "db" []) []
           Sample.upsert_failed eq_refl eq_refl).
  - intros pre t rest E. destruct pre as [|m pre].
    + injection E as <- _. reflexivity.
    + injection E as _ E. by destruct pre.
  - reflexivity.
Defined.

(** C6 as stated fails: the upsert for web succeeded, the one for db
    failed, and [InitTargets] returned without asking the Persistence
    Client for the record of the project, which is as before. *)
Lemma InitTargets_no_refresh_after_failure :
  UpsertTarget (Sample.collaborators true true) []
    (upsert_request (ref_of (Sample.record [] Sample.web_db))
       (Sample.machine "web" [])) = None
  ∧ (InitTargets (Sample.collaborators true true)
       (Sample.store [] Sample.web_db)).2
    = Returns (Some Sample.upsert_failed)
  ∧ project (InitTargets (Sample.collaborators true true)
               (Sample.store [] Sample.web_db)).1
    = project (Sample.store [] Sample.web_db)
  ∧ log (InitTargets (Sample.collaborators true true)
           (Sample.store [] Sample.web_db)).1
    = [EvUpsertTarget
         (upsert_request (ref_of (Sample.record [] Sample.web_db))
            (Sample.machine "web" []));
       EvUpsertTarget
         (upsert_request (ref_of (Sample.record [] Sample.web_db))
            (Sample.machine "db" []))].
Proof. repeat split. Qed.

Lemma Close_attempts_everything_witness :
  Close (Sample.collaborators true true) (Sample.store [] [])
  = (set_basis_projects ∅
       (add_log [EvTargetClose 1; EvCloser 7] (Sample.store [] [])),
     Returns (Some (MultiError [Sample.close_failed; Sample.close_failed])))
  ∧ basis_projects
      (Close (Sample.collaborators true true) (Sample.store [] [])).1 !! "demo"
    = None
  ∧ basis_projects
      (Close Sample3.backwards (Sample3.two_loaded [])).1 !! "demo"
    = None
  ∧ basis_projects
      (Close Sample3.backwards (Sample3.two_loaded [])).1 !! "other"
    = Some 5
  ∧ log (Close Sample3.backwards (Sample3.two_loaded [])).1
    = [EvTargetClose 2; EvTargetClose 1; EvCloser 7]
  ∧ (Close Sample3.backwards (Sample3.two_loaded [])).2
    = Returns (Some (MultiError [Sample.close_failed; Sample.close_failed])).
Proof.
  assert (Hwf : ∀ k a, targets (Sample.store [] []) !! k = Some a →
                       is_Some (heap (Sample.store [] []) !! a)).
  { intros k a H. cbn in H. apply lookup_singleton_Some in H as [_ <-].
    eexists. apply lookup_singleton_eq. }
  assert (Hwf2 : ∀ k a, targets (Sample3.two_loaded []) !! k = Some a →
                        is_Some (heap (Sample3.two_loaded []) !! a)).
  { intros k a H. cbn in H.
    apply lookup_insert_Some in H as [[_ <-]|[_ H]]; [by eexists |].
    apply lookup_singleton_Some in H as [_ <-]. by eexists. }
  assert (Hperm2 : range_targets Sample3.backwards (targets (Sample3.two_loaded []))
                   ≡ₚ map_to_list (targets (Sample3.two_loaded []))).
  { cbn [Sample3.backwards range_targets]. apply reverse_Permutation. }
  pose proof (Close_attempts_everything (Sample.collaborators true true)
                (Sample.store [] []) (Sample.record [] []) eq_refl
                (reflexivity _) Hwf)
    as (Hclose & _ & _ & _ & _ & _ & _ & _ & Hgone & _).
  pose proof (Close_attempts_everything Sample3.backwards
                (Sample3.two_loaded []) (Sample.record [] []) eq_refl
                Hperm2 Hwf2)
    as (_ & _ & _ & _ & _ & _ & Hres2 & Hlog2 & Hgone2 & Hother2 & _).
  split.
  { rewrite Hclose.
    cbn [Sample.collaborators range_targets Sample.store targets closers heap
         basis_projects].
    rewrite map_to_list_singleton. unfold target_failures.
    cbn [omap list_omap snd]. rewrite lookup_singleton_eq. cbn.
    by rewrite delete_singleton_eq. }
  split; [exact Hgone |]. split; [exact Hgone2 |].
  split.
  { transitivity (basis_projects (Sample3.two_loaded []) !! "other");
      [by apply Hother2 | by vm_compute]. }
  split; [rewrite Hlog2; by vm_compute | rewrite Hres2; by vm_compute].
Defined.

Lemma New_registered_name_returned_witness :
  ∃ f', Factory.New Sample.NewBasis_dev "dev" [5] Sample.dev_factory
        = (f', Returns (Ok 0))
        ∧ Factory.registered f' = Factory.registered Sample.dev_factory
        ∧ Factory.bases f' = Factory.bases Sample.dev_factory
        ∧ Factory.trace f' = [EvLock; EvUnlock].
Proof.
  apply (New_registered_name_returned Sample.NewBasis_dev Sample.dev_factory
           "dev" [5] 0 eq_refl).
  - done.
  - apply lookup_singleton_eq.
Defined.

Lemma New_failure_and_discard_witness :
  (∃ f', Factory.New Sample.NewBasis_fails "" [] Sample.dev_factory
         = (f', Returns (Err (ErrorString "construction failed")))
         ∧ Factory.registered f' = Factory.registered Sample.dev_factory
         ∧ Factory.bases f' = Factory.bases Sample.dev_factory)
  ∧ (∃ f', Factory.New Sample.NewBasis_dev "" [] Sample.dev_factory
           = (f', Returns (Ok 0))
           ∧ Factory.registered f' = Factory.registered Sample.dev_factory).
Proof.
  split.
  - apply (proj1 (New_failure_and_discard Sample.NewBasis_fails
                    Sample.dev_factory "" [] eq_refl (or_introl eq_refl))).
    reflexivity.
  - destruct (proj2 (New_failure_and_discard Sample.NewBasis_dev
                       Sample.dev_factory "" [] eq_refl (or_introl eq_refl))
                {| Candidate.name := "dev"; Candidate.closers := [(3, None)] |}
                0 eq_refl (lookup_singleton_eq _ _))
      as (f' & Hnew & Hreg & _).
    exists f'. by split.
Defined.

Lemma New_constructs_under_lock_witness :
  ∃ mid,
    Factory.trace (Factory.New Sample.NewBasis_dev "dev" [] Sample.empty_factory).1
    = EvLock :: mid ++ [EvUnlock]
    ∧ EvNewBasis (basis_options "dev" []) ∈ mid
    ∧ Factory.constructs_locked false (EvLock :: mid ++ [EvUnlock]) = true.
Proof.
  destruct (New_constructs_under_lock Sample.NewBasis_dev Sample.empty_factory
              "dev" [] eq_refl) as (mid & Htr & _ & Hnew & Hlocked & _).
  exists mid. split; [exact Htr |]. split; [| exact Hlocked].
  apply Hnew. right. apply lookup_empty.
Defined.

(** C10 as stated fails: in this call [NewBasis] is called, and the options
    are applied, between the lock and the unlock. *)
Lemma New_constructs_while_locked :
  Factory.trace (Factory.New Sample.NewBasis_dev "dev" [] Sample.empty_factory).1
  = [EvLock; EvSub "dev";
     EvNewBasis [WithFactory; FromBasis (Sub "dev")]; EvUnlock]
  ∧ Factory.constructs_unlocked false
      (Factory.trace
         (Factory.New Sample.NewBasis_dev "dev" [] Sample.empty_factory).1)
    = false.
Proof.
  rewrite (New_registers Sample.NewBasis_dev Sample.empty_factory "dev" []
             {| Candidate.name := "dev"; Candidate.closers := [(3, None)] |}
             eq_refl (or_intror (lookup_empty _)) eq_refl (lookup_empty _)).
  split; reflexivity.
Qed.

(** * More on the default provider *)

Lemma for_range_Some_elem {A R : Type} (l : list A) (body : A → option R) (r : R) :
  for_range l body = Some r → ∃ x, x ∈ l ∧ body x = Some r.
Proof.
  induction l as [|x l IH]; cbn; [done |].
  destruct (body x) as [y|] eqn:E.
  - intros [= <-]. exists x. split; [by left | done].
  - intros H. destruct (IH H) as (z & Hz & Hb). exists z. split; [by right | done].
Qed.

(** Whatever tier answers, the answer is in the usable list. *)
Lemma tiers_usable (d p : string) (configured usable preferred : list string) :
  tiers d configured usable preferred = Ok p → p ∈ usable.
Proof.
  unfold tiers. case_bool_decide as Hd; [by intros [= <-] |].
  destruct (List.find _ configured) as [cp|] eqn:E1.
  { intros [= <-]. apply find_some in E1 as [_ H].
    apply andb_true_iff in H as [H _]. by apply bool_decide_eq_true in H. }
  clear E1.
  destruct (List.find (λ cp, bool_decide (cp ∈ usable)) configured)
    as [cp|] eqn:E2.
  { intros [= <-]. apply find_some in E2 as [_ H]. by apply bool_decide_eq_true in H. }
  clear E2.
  destruct (List.find _ preferred) as [pp|] eqn:E3.
  { intros [= <-]. apply find_some in E3 as [_ H]. by apply bool_decide_eq_true in H. }
  destruct usable as [|u usable]; [done |]. intros [= <-]. by left.
Qed.

(** What the loop over the plugins puts in the usable list. *)
Lemma usable_loop_elem (plugins : plugin.Manager) (opts : DefaultProviderOptions.t)
    (listed : list plugin.Plugin) (acc usable : list string) (p : string) :
  usable_loop plugins opts listed acc = Done (Ok usable) → p ∈ usable →
  p ∈ acc
  ∨ ∃ pp, pp ∈ listed ∧ plugin.Name pp = p
          ∧ DefaultProviderOptions.IsExcluded opts p = false
          ∧ (DefaultProviderOptions.CheckUsable opts = true →
             plugin.GetPlugin plugins (plugin.Name pp) (plugin.Type_ pp)
             = Ok (plugin.Provider (Ok true))).
Proof.
  revert acc. induction listed as [|pp listed IH]; intros acc; cbn.
  - intros [= <-] Hp. by left.
  - assert (Hmore : ∀ acc',
              (p ∈ acc' → p ∈ acc ∨ plugin.Name pp = p
                 ∧ DefaultProviderOptions.IsExcluded opts p = false
                 ∧ (DefaultProviderOptions.CheckUsable opts = true →
                    plugin.GetPlugin plugins (plugin.Name pp) (plugin.Type_ pp)
                    = Ok (plugin.Provider (Ok true)))) →
              usable_loop plugins opts listed acc' = Done (Ok usable) →
              p ∈ usable →
              p ∈ acc
              ∨ ∃ pp0, pp0 ∈ pp :: listed ∧ plugin.Name pp0 = p
                  ∧ DefaultProviderOptions.IsExcluded opts p = false
                  ∧ (DefaultProviderOptions.CheckUsable opts = true →
                     plugin.GetPlugin plugins (plugin.Name pp0) (plugin.Type_ pp0)
                     = Ok (plugin.Provider (Ok true)))).
    { intros acc' Hacc Hloop Hp.
      destruct (IH acc' Hloop Hp) as [Hin|(pp0 & Hin & Hrest)].
      - destruct (Hacc Hin) as [?|Hhere]; [by left |].
        right. exists pp. split; [by left | done].
      - right. exists pp0. split; [by right | done]. }
    destruct (DefaultProviderOptions.IsExcluded opts (plugin.Name pp)) eqn:Hex.
    { apply Hmore. by left. }
    destruct (DefaultProviderOptions.CheckUsable opts) eqn:Hcheck.
    + destruct (plugin.GetPlugin plugins _ _) as [[[[|]|e1]|]|e2] eqn:Hget;
        try done.
      * apply Hmore. intros [Hin | ->%list_elem_of_singleton]%elem_of_app;
          [by left | by right].
      * apply Hmore. by left.
    + apply Hmore. intros [Hin | ->%list_elem_of_singleton]%elem_of_app;
        [by left | by right].
Qed.

(** Unless the environment default is forced, the provider answered is
    an installed provider plugin that is not excluded and, when the
    usability check is asked for, whose plugin says it is usable. *)
Theorem DefaultProvider_answers_usable (Getenv : string → string)
    (plugins : plugin.Manager) (project : option server_Project.t)
    (opts : DefaultProviderOptions.t) (p : string) :
  bool_decide (Getenv "VAGRANT_DEFAULT_PROVIDER" ≠ "")
    && DefaultProviderOptions.ForceDefault opts = false →
  DefaultProvider Getenv plugins project opts = Done (Ok p) →
  ∃ listed pp,
    plugin.ListPlugins plugins "provider" = Ok listed
    ∧ pp ∈ listed ∧ plugin.Name pp = p
    ∧ DefaultProviderOptions.IsExcluded opts p = false
    ∧ (DefaultProviderOptions.CheckUsable opts = true →
       plugin.GetPlugin plugins (plugin.Name pp) (plugin.Type_ pp)
       = Ok (plugin.Provider (Ok true))).
Proof.
  intros Hforce. unfold DefaultProvider. rewrite Hforce.
  unfold usableProviders.
  destruct (plugin.ListPlugins plugins "provider") as [listed|e] eqn:Hlist;
    [| done].
  destruct (usable_loop plugins opts listed []) as [[usable|e]|] eqn:Hloop;
    [| done | done].
  rewrite select_tiers. intros [= Ht]. apply tiers_usable in Ht.
  destruct (usable_loop_elem plugins opts listed [] usable p Hloop Ht)
    as [Hnil|(pp & Hin & Hrest)]; [by apply elem_of_nil in Hnil |].
  by exists listed, pp.
Qed.

(** Once the usable list is built and no default is forced, the error
    "No default provider." is the answer exactly when the usable list is
    empty; with a usable provider there is always an answer. *)
Theorem DefaultProvider_fails_iff_none_usable (Getenv : string → string)
    (plugins : plugin.Manager) (project : option server_Project.t)
    (opts : DefaultProviderOptions.t) (usable : list string) :
  bool_decide (Getenv "VAGRANT_DEFAULT_PROVIDER" ≠ "")
    && DefaultProviderOptions.ForceDefault opts = false →
  usableProviders plugins opts = Done (Ok usable) →
  (usable = [] →
   DefaultProvider Getenv plugins project opts
   = Done (Err (ErrorString "No default provider.")))
  ∧ (usable ≠ [] →
     ∃ p, DefaultProvider Getenv plugins project opts = Done (Ok p)
          ∧ p ∈ usable).
Proof.
  intros Hforce Husable. unfold DefaultProvider.
  rewrite Hforce, Husable, select_tiers. split.
  - intros ->. unfold tiers.
    rewrite bool_decide_eq_false_2 by (by intros ?%elem_of_nil).
    assert (Hnone : ∀ (f : string → bool) l,
               (∀ x, f x = false) → List.find f l = None).
    { intros f l Hf. induction l as [|x l IH]; cbn; [done |]. by rewrite Hf. }
    rewrite !Hnone; [done | | |]; intros x;
      rewrite ?andb_false_iff, ?bool_decide_eq_false;
      try left; by intros ?%elem_of_nil.
  - intros Hne.
    destruct (tiers (Getenv "VAGRANT_DEFAULT_PROVIDER")
                (configProviders project opts) usable
                (preferredProviders Getenv)) as [p|e] eqn:Ht.
    + exists p. split; [done |]. by apply tiers_usable in Ht.
    + exfalso. revert Ht. unfold tiers.
      clear Hforce. destruct (bool_decide (_ ∈ usable)); [discriminate |].
      repeat (destruct (List.find _ _); [discriminate |]).
      destruct usable; [done | discriminate].
Qed.

(** No piece of a split holds the separator. *)
Lemma Split_no_sep (s : string) (sep : ascii) :
  Forall (λ piece, sep ∉ list_ascii_of_string piece) (strings.Split s sep).
Proof.
  induction s as [|c s IH]; cbn.
  - apply Forall_singleton. cbn. by intros ?%elem_of_nil.
  - destruct (decide (c = sep)) as [->|Hne].
    + apply Forall_cons. split; [cbn; by intros ?%elem_of_nil | done].
    + destruct (strings.Split s sep) as [|h t].
      * apply Forall_singleton. cbn.
        intros [?|?%elem_of_nil]%elem_of_cons; [congruence | done].
      * apply Forall_cons in IH as [Hh Ht]. apply Forall_cons. split; [| done].
        cbn. intros [?|?]%elem_of_cons; [congruence | done].
Qed.

Lemma strip_prefix_subseteq (p l l' : list ascii) :
  strings.strip_prefix p l = Some l' → l' ⊆ l.
Proof.
  revert l. induction p as [|a p IH]; intros l; cbn.
  - by intros [= <-].
  - destruct l as [|b l]; [done |]. destruct (decide (a = b)); [| done].
    intros H%IH. by apply list_subseteq_cons.
Qed.

Lemma trim_left_subseteq (fuel : nat) (runes : list (list ascii))
    (l : list ascii) :
  strings.trim_left fuel runes l ⊆ l.
Proof.
  revert l. induction fuel as [|n IH]; intros l; cbn; [done |].
  destruct (strings.drop_space runes l) as [l'|] eqn:E; [| done].
  unfold strings.drop_space in E.
  apply for_range_Some_elem in E as (r & _ & E%strip_prefix_subseteq).
  by transitivity l'.
Qed.

(** Trimming only removes bytes. *)
Lemma TrimSpace_subseteq (s : string) :
  list_ascii_of_string (strings.TrimSpace s) ⊆ list_ascii_of_string s.
Proof.
  unfold strings.TrimSpace. rewrite list_ascii_of_string_of_list_ascii.
  intros c Hc. apply list_elem_of_In in Hc. apply <- in_rev in Hc.
  apply list_elem_of_In, trim_left_subseteq, list_elem_of_In in Hc.
  apply <- in_rev in Hc. by apply list_elem_of_In, trim_left_subseteq in Hc.
Qed.

(** The preferred providers are read off VAGRANT_PREFERRED_PROVIDERS by
    splitting at the commas, trimming each piece and dropping the pieces
    left empty, in order: the in-place compaction loses and reorders
    nothing.  So no preferred provider is empty or holds a comma. *)
Theorem preferredProviders_parsed_entries (Getenv : string → string) :
  preferredProviders Getenv
  = List.filter (λ s, bool_decide (s ≠ ""))
      (map strings.TrimSpace
         (strings.Split (Getenv "VAGRANT_PREFERRED_PROVIDERS") ","))
  ∧ ∀ p, p ∈ preferredProviders Getenv →
      p ≠ "" ∧ ("," : ascii) ∉ list_ascii_of_string p.
Proof.
  rewrite preferredProviders_preferred_list. split; [done |].
  intros p Hp. unfold preferred_list in Hp.
  apply list_elem_of_In, filter_In in Hp as [Hp Hne].
  apply bool_decide_eq_true in Hne. split; [done |].
  apply in_map_iff in Hp as (piece & <- & Hpiece).
  intros Hc%TrimSpace_subseteq.
  pose proof (Split_no_sep (Getenv "VAGRANT_PREFERRED_PROVIDERS") ",") as Hall.
  rewrite Forall_forall in Hall. apply (Hall piece); [| done].
  by apply list_elem_of_In.
Qed.

(** Without the usability check no plugin is loaded: the usable providers
    are the names of the listed provider plugins that are not excluded, in
    listing order. *)
Theorem usableProviders_unchecked (plugins : plugin.Manager)
    (opts : DefaultProviderOptions.t) (listed : list plugin.Plugin) :
  DefaultProviderOptions.CheckUsable opts = false →
  plugin.ListPlugins plugins "provider" = Ok listed →
  usableProviders plugins opts
  = Done (Ok (List.filter
                (λ n, negb (DefaultProviderOptions.IsExcluded opts n))
                (map plugin.Name listed))).
Proof.
  intros Hc Hl. unfold usableProviders. rewrite Hl.
  by rewrite usable_loop_unchecked.
Qed.

(** * More on loading and looking up targets *)

(** A load that reaches the registry and does not find the id there. *)
Lemma LoadTarget_miss (env : Collaborators) (s : Store)
    (topts : list TargetOption) (t : Target.t) (r : server_Target.t) :
  resolves topts t r → dir_available env s t r →
  targets s !! server_Target.ResourceId r = None →
  ∃ s' t',
    LoadTarget env topts s = (s', Returns (Ok (fresh (dom (heap s)))))
    ∧ targets s' = <[server_Target.ResourceId r := fresh (dom (heap s))]> (targets s)
    ∧ heap s' = <[fresh (dom (heap s)) := Target.Closer SaveOnClose t']> (heap s)
    ∧ Target.target t' = Some r
    ∧ Target.closers t' = Target.closers t
    ∧ project s' = project s ∧ closers s' = closers s.
Proof.
  intros [Ha Ht] Hd Hreg. unfold LoadTarget. rewrite Ha.
  destruct (ensure_dir_available env t r s Ht Hd) as (s1 & t' & He).
  destruct (ensure_dir_inv env t t' s s1 He) as (Ht' & Htg & Hh & Hp).
  assert (Hcl : Target.closers t' = Target.closers t ∧ closers s1 = closers s).
  { revert He. unfold ensure_dir. destruct (Target.dir t); run.
    - by intros [= <- <-].
    - rewrite Ht. cbn. destruct (dir_Target env _ _); [| done].
      by intros [= <- <-]. }
  destruct Hcl as [Hcl Hcs].
  run. rewrite He. run. rewrite Ht', Ht. cbn. rewrite Htg, Hreg. cbn.
  rewrite Hh, alter_insert_eq. eexists _, t'. split; [reflexivity |].
  cbn. by rewrite Ht', Ht.
Qed.

(** Loading a target whose resource id is not registered registers the
    shell: it gets an address that held no Target, the target map sends
    the resolved resource id to it and is otherwise as before, the save
    on close is the last cleanup action of the new Target, and a lookup
    of that resource id then answers the new Target and changes nothing. *)
Theorem LoadTarget_then_Target (env : Collaborators) (s : Store)
    (topts : list TargetOption) (t : Target.t) (r : server_Target.t) :
  resolves topts t r → dir_available env s t r →
  targets s !! server_Target.ResourceId r = None →
  ∃ s' a t',
    LoadTarget env topts s = (s', Returns (Ok a))
    ∧ heap s !! a = None
    ∧ targets s' = <[server_Target.ResourceId r := a]> (targets s)
    ∧ heap s' !! a = Some t'
    ∧ Target.target t' = Some r
    ∧ Target.closers t' = Target.closers t ++ [SaveOnClose]
    ∧ ∀ provider,
        Target_ env (server_Target.ResourceId r) provider s'
        = (s', Returns (Ok a)).
Proof.
  intros Hres Hd Hreg.
  destruct (LoadTarget_miss env s topts t r Hres Hd Hreg)
    as (s' & t' & Hload & Htg & Hh & Ht' & Hcl & _).
  exists s', (fresh (dom (heap s))), (Target.Closer SaveOnClose t').
  split; [done |]. split.
  { apply not_elem_of_dom, is_fresh. }
  split; [done |]. split; [by rewrite Hh, lookup_insert_eq |].
  split; [done |]. split; [cbn; by rewrite Hcl |].
  intros provider. unfold Target_. run. by rewrite Htg, lookup_insert_eq.
Qed.

Lemma apply_options_aggregate (topts : list TargetOption) (t : Target.t)
    (done : list error) :
  (apply_options topts t (aggregate done)).2
  = aggregate (done ++ option_failures topts t).
Proof.
  revert t done. induction topts as [|opt rest IH]; intros t done; cbn.
  - by rewrite app_nil_r.
  - destruct (opt t) as [t' [e|]]; cbn.
    + rewrite aggregate_snoc, IH. by rewrite <- app_assoc.
    + apply IH.
Qed.

Lemma LoadTarget_options_fail (env : Collaborators) (s : Store)
    (topts : list TargetOption) :
  option_failures topts new_shell ≠ [] →
  LoadTarget env topts s
  = (s, Returns (Err (MultiError
                        (List.concat (map flatten
                                        (option_failures topts new_shell)))))).
Proof.
  intros Hne. unfold LoadTarget.
  pose proof (apply_options_aggregate topts new_shell []) as Hagg.
  change (aggregate []) with (@None error) in Hagg. cbn [app] in Hagg.
  destruct (apply_options topts new_shell None) as [t err]. cbn in Hagg.
  subst err. by destruct (option_failures topts new_shell).
Qed.

(** When an option of a load fails, the other options are applied all the
    same, and the load returns the errors of all the failing options as
    one multierror, in their order; the store is untouched: nothing is
    registered and no data directory is asked for. *)
Theorem LoadTarget_option_errors (env : Collaborators) (s : Store)
    (topts : list TargetOption) :
  option_failures topts new_shell ≠ [] →
  LoadTarget env topts s
  = (s, Returns (Err (MultiError
                        (List.concat (map flatten
                                        (option_failures topts new_shell))))))
  ∧ ∀ e, e ∈ option_failures topts new_shell →
         ∀ x, x ∈ flatten e →
              x ∈ List.concat (map flatten (option_failures topts new_shell)).
Proof.
  intros Hne. split; [by apply LoadTarget_options_fail |].
  intros e He x Hx. apply list_elem_of_In, in_concat. exists (flatten e).
  split; [| by apply list_elem_of_In]. apply in_map. by apply list_elem_of_In.
Qed.

(** The scan keeps the target map, the record of the project and the
    invariant of the target map. *)
Lemma Target_scan_inv (env : Collaborators) (entries : list (string * addr))
    (nameOrId provider : string) (s s' : Store)
    (out : outcome (option (result addr))) :
  Target_scan env entries nameOrId provider s = (s', out) →
  targets s' = targets s ∧ project s' = project s
  ∧ (targets_well_keyed s → targets_well_keyed s').
Proof.
  induction entries as [|[k b] rest IH]; cbn [Target_scan]; run.
  - by intros [= <- _].
  - destruct (heap s !! b) as [tb|] eqn:Hb; cbn; [| by intros [= <- _]].
    destruct (Target.target tb) as [rb|] eqn:Hrb; cbn; [| by intros [= <- _]].
    destruct (decide (server_Target.Name rb = nameOrId)) as [Hn|Hn].
    + destruct (Target_State env tb) as [active|er]; [| by intros [= <- _]].
      destruct (bool_decide (provider ≠ "") && negb active); cbn;
        intros [= <- _]; [| done].
      split; [done |]. split; [done |].
      intros Hwf k' a' Hk'. cbn in Hk'.
      destruct (Hwf k' a' Hk') as (t0 & r0 & Ht0 & Hr0 & Hid).
      cbn. destruct (decide (b = a')) as [->|Hne].
      * rewrite lookup_insert_eq. rewrite Hb in Ht0. injection Ht0 as <-.
        rewrite Hrb in Hr0. injection Hr0 as <-. by eexists _, _.
      * rewrite lookup_insert_ne by done. by eexists _, _.
    + destruct (decide (server_Target.ResourceId rb = nameOrId));
        [by intros [= <- _] | apply IH].
Qed.

Lemma ensure_dir_frame (env : Collaborators) (t : Target.t) (s s' : Store)
    (out : outcome (result Target.t)) :
  ensure_dir env t s = (s', out) →
  targets s' = targets s ∧ heap s' = heap s ∧ project s' = project s
  ∧ closers s' = closers s.
Proof.
  unfold ensure_dir. destruct (Target.dir t); run; [by intros [= <- _] |].
  destruct (Target.target t); cbn; [| by intros [= <- _]].
  destruct (dir_Target env _ _); by intros [= <- _].
Qed.

(** A load keeps what is registered and the invariant of the target map. *)
Lemma LoadTarget_inv (env : Collaborators) (topts : list TargetOption)
    (s s' : Store) (out : outcome (result addr)) :
  LoadTarget env topts s = (s', out) →
  (∀ k a, targets s !! k = Some a → targets s' !! k = Some a)
  ∧ project s' = project s
  ∧ (targets_well_keyed s → targets_well_keyed s').
Proof.
  unfold LoadTarget. destruct (apply_options topts new_shell None) as [t0 err].
  destruct err as [e|]; run; [by intros [= <- _] |].
  destruct (ensure_dir env t0 s) as [s1 o] eqn:He.
  apply ensure_dir_frame in He as (Htg & Hh & Hp & _).
  assert (Hsame : (∀ k a, targets s !! k = Some a → targets s1 !! k = Some a)
                  ∧ project s1 = project s
                  ∧ (targets_well_keyed s → targets_well_keyed s1)).
  { split; [by rewrite Htg |]. split; [done |].
    unfold targets_well_keyed. by rewrite Htg, Hh. }
  destruct o as [[t1|e1]| |]; try by intros [= <- _].
  destruct (Target.target t1) as [r|] eqn:Hr; cbn; [| by intros [= <- _]].
  destruct (targets s1 !! server_Target.ResourceId r) eqn:Hreg; cbn;
    [by intros [= <- _] |].
  intros [= <- _]. cbn. rewrite alter_insert_eq.
  split; [| split; [done |]].
  - intros k a Hk. rewrite <- Htg in Hk.
    rewrite lookup_insert_ne; [done |]. intros <-. by rewrite Hreg in Hk.
  - intros Hwf k a. unfold targets_well_keyed in Hwf. rewrite <- Htg, <- Hh in Hwf.
    cbn. intros [[<- <-]|[Hne Hk]]%lookup_insert_Some.
    + rewrite lookup_insert_eq. by eexists _, _.
    + destruct (Hwf k a Hk) as (t2 & r2 & Ht2 & Hr2 & Hid).
      rewrite lookup_insert_ne; [by eexists _, _ |].
      intros Hf. apply (is_fresh (dom (heap s1))). rewrite Hf.
      apply elem_of_dom. by eexists.
Qed.

(** No load and no lookup ever takes a Target out of the target map or
    registers another one under its key; and if every key of the target
    map is the resource id of the Target it holds, that is so afterwards
    too, whatever the call answers. *)
Theorem targets_kept (env : Collaborators) (s : Store) :
  (∀ topts s' out,
     LoadTarget env topts s = (s', out) →
     (∀ k a, targets s !! k = Some a → targets s' !! k = Some a)
     ∧ (targets_well_keyed s → targets_well_keyed s'))
  ∧ (∀ nameOrId provider s' out,
       Target_ env nameOrId provider s = (s', out) →
       (∀ k a, targets s !! k = Some a → targets s' !! k = Some a)
       ∧ (targets_well_keyed s → targets_well_keyed s')).
Proof.
  split.
  - intros topts s' out Hload.
    destruct (LoadTarget_inv env topts s s' out Hload) as (H1 & _ & H2). done.
  - intros nameOrId provider s' out. unfold Target_. run.
    destruct (targets s !! nameOrId) as [b|]; [by intros [= <- _] |].
    destruct (Target_scan env _ nameOrId provider s) as [s1 o] eqn:Hscan.
    destruct (Target_scan_inv env _ _ _ _ _ _ Hscan) as (Htg & Hp & Hwf).
    destruct o as [[x|]| |]; try (intros [= <- _]; by rewrite Htg).
    unfold Ref. run.
    destruct (project s1) as [p|]; cbn; [| intros [= <- _]; by rewrite Htg].
    intros Hload.
    destruct (LoadTarget_inv env _ s1 s' out Hload) as (H1 & _ & H2).
    split; [| by auto]. intros k a Hk. apply H1. by rewrite Htg.
Qed.

Lemma Target_scan_by_name (env : Collaborators) (entries : list (string * addr))
    (nameOrId provider : string) (s s' : Store) (a : addr) :
  targets_well_keyed s → targets s !! nameOrId = None →
  (∀ e, e ∈ entries → targets s !! e.1 = Some e.2) →
  Target_scan env entries nameOrId provider s = (s', Returns (Some (Ok a))) →
  ∃ t r, heap s !! a = Some t ∧ Target.target t = Some r
         ∧ server_Target.Name r = nameOrId.
Proof.
  intros Hwf Hmiss. induction entries as [|[k b] rest IH]; intros Hin;
    cbn [Target_scan]; run; [done |].
  destruct (Hwf k b (Hin (k, b) ltac:(by left))) as (t & r & Ht & Hr & Hid).
  rewrite Ht. cbn. rewrite Hr. cbn.
  destruct (decide (server_Target.Name r = nameOrId)) as [Hn|Hn].
  - destruct (Target_State env t) as [active|er]; [| done].
    destruct (bool_decide (provider ≠ "") && negb active); cbn;
      intros [= <- <-]; by eexists _, _.
  - destruct (decide (server_Target.ResourceId r = nameOrId)) as [Hi|Hi].
    + exfalso. pose proof (Hin (k, b) ltac:(by left)) as Hk. cbn in Hk.
      by rewrite <- Hid, Hi, Hmiss in Hk.
    + apply IH. intros e He. apply Hin. by right.
Qed.

(** When every key of the target map is the resource id of its Target, a
    lookup that misses the map and is answered by the scan answers a
    Target whose name is the string looked up: the resource-id test of
    the scan never decides. *)
Theorem Target_scan_answers_by_name (env : Collaborators)
    (nameOrId provider : string) (s s' : Store) (a : addr) :
  targets_well_keyed s → targets s !! nameOrId = None →
  range_targets env (targets s) ≡ₚ map_to_list (targets s) →
  Target_scan env (range_targets env (targets s)) nameOrId provider s
  = (s', Returns (Some (Ok a))) →
  Target_ env nameOrId provider s = (s', Returns (Ok a))
  ∧ ∃ t r, heap s !! a = Some t ∧ Target.target t = Some r
           ∧ server_Target.Name r = nameOrId.
Proof.
  intros Hwf Hmiss Hperm Hscan. split.
  - unfold Target_. run. by rewrite Hmiss, Hscan.
  - apply (Target_scan_by_name env (range_targets env (targets s)) nameOrId
             provider s s' a Hwf Hmiss); [| done].
    intros [k b] He. rewrite Hperm in He. by apply elem_of_map_to_list in He.
Qed.

(** On a name match [Target] writes the provider asked for into the record
    of the Target found, when the provider is not empty and the Target is
    not active: afterwards the record of that Target has this provider,
    and its name and resource id as before; the Target keeps its directory
    and its closers; no other Target is touched, nor the target map, the
    project record or the log. *)
Theorem Target_name_match_sets_provider (env : Collaborators)
    (nameOrId provider : string) (s : Store) (pre rest : list (string * addr))
    (k : string) (a : addr) (t : Target.t) (r : server_Target.t) :
  targets s !! nameOrId = None →
  range_targets env (targets s) = pre ++ (k, a) :: rest →
  Forall (passed_over (heap s) nameOrId) pre →
  heap s !! a = Some t → Target.target t = Some r →
  server_Target.Name r = nameOrId →
  Target_State env t = Ok false → provider ≠ "" →
  ∃ s' t' r',
    Target_ env nameOrId provider s = (s', Returns (Ok a))
    ∧ heap s' !! a = Some t' ∧ Target.target t' = Some r'
    ∧ server_Target.Provider r' = provider
    ∧ server_Target.Name r' = server_Target.Name r
    ∧ server_Target.ResourceId r' = server_Target.ResourceId r
    ∧ Target.dir t' = Target.dir t ∧ Target.closers t' = Target.closers t
    ∧ (∀ b, b ≠ a → heap s' !! b = heap s !! b)
    ∧ targets s' = targets s ∧ project s' = project s ∧ log s' = log s.
Proof.
  intros Hmiss Hrange Hpre Ht Hr Hn Hst Hprov.
  exists (overwrite_provider a provider t r s),
    (Target.with_target (server_Target.with_Provider provider r) t),
    (server_Target.with_Provider provider r).
  split.
  - unfold Target_. run. rewrite Hmiss, Hrange.
    rewrite (Target_scan_skip env pre _ nameOrId provider s Hpre).
    rewrite (Target_scan_name env k a rest nameOrId provider s t r false)
      by done.
    by rewrite bool_decide_true by done.
  - unfold overwrite_provider, set_heap. cbn.
    split; [by rewrite lookup_insert_eq |].
    repeat (split; [done |]).
    split; [| done]. intros b Hb. by rewrite lookup_insert_ne.
Qed.

(** A lookup that finds the string neither as a key of the target map nor
    as the name or the resource id of a loaded Target is a load with a
    ref that has the string as its name and as its resource id, and with
    the provider; so when the ref cannot be resolved, the lookup returns
    that error and the store is untouched. *)
Theorem Target_falls_back_to_LoadTarget (env : Collaborators)
    (nameOrId provider : string) (s : Store) (r : server_Project.t) :
  project s = Some r → targets s !! nameOrId = None →
  Forall (passed_over (heap s) nameOrId) (range_targets env (targets s)) →
  let ref := {| Ref_Target.ResourceId := nameOrId;
                Ref_Target.Name := nameOrId;
                Ref_Target.Project := Some (ref_of r) |} in
  Target_ env nameOrId provider s
  = LoadTarget env [WithTargetRef env ref; WithProvider env provider] s
  ∧ (option_failures [WithTargetRef env ref; WithProvider env provider]
       new_shell ≠ [] →
     ∃ e, Target_ env nameOrId provider s = (s, Returns (Err e))).
Proof.
  intros Hp Hmiss Hpass ref.
  assert (Heq : Target_ env nameOrId provider s
                = LoadTarget env [WithTargetRef env ref; WithProvider env provider] s).
  { unfold Target_. run. rewrite Hmiss.
    rewrite <- (app_nil_r (range_targets env (targets s))).
    rewrite Target_scan_skip by done. cbn [Target_scan]. run.
    unfold Ref. run. rewrite Hp. done. }
  split; [done |]. intros Hfail. rewrite Heq. eexists.
  by apply LoadTarget_options_fail.
Qed.

(** * All the targets, and the active ones *)

Lemma LoadTarget_answer_registered (env : Collaborators)
    (topts : list TargetOption) (s s' : Store) (a : addr) :
  LoadTarget env topts s = (s', Returns (Ok a)) →
  ∃ k, targets s' !! k = Some a.
Proof.
  unfold LoadTarget. destruct (apply_options topts new_shell None) as [t0 err].
  destruct err as [e|]; run; [done |].
  destruct (ensure_dir env t0 s) as [s1 [[t1|e1]| |]]; try done.
  destruct (Target.target t1) as [r|]; cbn; [| done].
  destruct (targets s1 !! server_Target.ResourceId r) as [b|] eqn:Hreg; cbn.
  - intros [= <- <-]. by eexists.
  - intros [= <- <-]. cbn. eexists. apply lookup_insert_eq.
Qed.

Lemma Targets_loop_inv (env : Collaborators) (refs : list Ref_Target.t)
    (acc ts : list addr) (s s' : Store) :
  Targets_loop env refs acc s = (s', Returns (Ok ts)) →
  (∀ k a, targets s !! k = Some a → targets s' !! k = Some a)
  ∧ ∃ new, ts = acc ++ new ∧ List.length new = List.length refs
           ∧ ∀ a, a ∈ new → ∃ k, targets s' !! k = Some a.
Proof.
  revert acc s. induction refs as [|ref refs IH]; intros acc s; cbn; run.
  - intros [= <- <-]. split; [done |]. exists []. rewrite app_nil_r.
    split; [done |]. split; [done |]. by intros ? ?%elem_of_nil.
  - destruct (LoadTarget env [WithTargetRef env ref] s) as [s1 o] eqn:Hload.
    destruct o as [[a|e]| |]; try done.
    intros Hloop. destruct (IH _ _ Hloop) as (Hkeep & new & -> & Hlen & Hreg).
    destruct (LoadTarget_inv env _ s s1 _ Hload) as (Hkeep1 & _ & _).
    split; [by auto |]. exists (a :: new).
    split; [by rewrite <- app_assoc |]. split; [cbn; by rewrite Hlen |].
    intros b [-> | Hb]%elem_of_cons; [| by apply Hreg].
    destruct (LoadTarget_answer_registered env _ s s1 a Hload) as [k Hk].
    exists k. by apply Hkeep.
Qed.

Lemma Targets_loop_loaded (env : Collaborators) (refs : list Ref_Target.t)
    (acc ts : list addr) (s s' : Store) :
  Targets_loop env refs acc s = (s', Returns (Ok ts))
  ↔ ∃ new, ts = acc ++ new ∧ loaded_in_order env refs s new s'.
Proof.
  revert acc s. induction refs as [|ref refs IH]; intros acc s; cbn; run.
  - split.
    + intros [= <- <-]. exists []. split; [by rewrite app_nil_r | constructor].
    + intros (new & -> & Hl). inversion Hl; subst. by rewrite app_nil_r.
  - destruct (LoadTarget env [WithTargetRef env ref] s) as [s1 o] eqn:Hload.
    split.
    + destruct o as [[a|e]| |]; try done.
      intros (new & -> & Hl)%IH. exists (a :: new).
      split; [by rewrite <- app_assoc |]. by apply (loaded_next env ref refs s s1).
    + intros (new & -> & Hl). inversion Hl as [|? ? ? s1' ? a ts' Hload' Hrest]; subst.
      rewrite Hload in Hload'. injection Hload' as <- ->.
      apply IH. exists ts'. split; [by rewrite <- app_assoc | done].
Qed.

Lemma Targets_loop_app (env : Collaborators) (pre rest : list Ref_Target.t)
    (acc ts : list addr) (s s1 : Store) :
  loaded_in_order env pre s ts s1 →
  Targets_loop env (pre ++ rest) acc s = Targets_loop env rest (acc ++ ts) s1.
Proof.
  intros Hl. revert acc. induction Hl as [s|ref refs s s1 s2 a ts Hload Hl IH];
    intros acc; cbn [app Targets_loop].
  - by rewrite app_nil_r.
  - run. rewrite Hload. rewrite IH. by rewrite <- app_assoc.
Qed.

Lemma Targets_loop_keeps (env : Collaborators) (refs : list Ref_Target.t)
    (acc : list addr) (s s' : Store) (out : outcome (result (list addr))) :
  Targets_loop env refs acc s = (s', out) →
  ∀ k a, targets s !! k = Some a → targets s' !! k = Some a.
Proof.
  revert acc s. induction refs as [|ref refs IH]; intros acc s; cbn; run.
  - by intros [= <- _].
  - destruct (LoadTarget env [WithTargetRef env ref] s) as [s1 o] eqn:Hload.
    destruct (LoadTarget_inv env _ s s1 _ Hload) as (Hkeep & _ & _).
    destruct o as [[a|e]| |]; try (intros [= <- _]; by apply Hkeep).
    intros Hloop k b Hk. apply (IH _ _ Hloop). by apply Hkeep.
Qed.

(** [Targets] loads the references of the project record one after the
    other and succeeds exactly when they all load, with their Targets in
    the order of the references: one Target for each reference, every one
    of them registered in the target map afterwards.  It stops at the
    first reference that does not load, wherever it is in the list, and
    returns its error, in the store that load left.  Whatever it answers,
    it takes nothing out of the target map; with no reference it does
    nothing. *)
Theorem Targets_one_per_reference (env : Collaborators) (s : Store)
    (r : server_Project.t) :
  project s = Some r →
  (∀ s' ts,
     Targets env s = (s', Returns (Ok ts))
     ↔ loaded_in_order env (server_Project.Targets r) s ts s')
  ∧ (∀ pre ref rest ts s1 s2 e,
       server_Project.Targets r = pre ++ ref :: rest →
       loaded_in_order env pre s ts s1 →
       LoadTarget env [WithTargetRef env ref] s1 = (s2, Returns (Err e)) →
       Targets env s = (s2, Returns (Err e)))
  ∧ (∀ s' out,
       Targets env s = (s', out) →
       ∀ k a, targets s !! k = Some a → targets s' !! k = Some a)
  ∧ (∀ s' ts,
       Targets env s = (s', Returns (Ok ts)) →
       List.length ts = List.length (server_Project.Targets r)
       ∧ (∀ a, a ∈ ts → ∃ k, targets s' !! k = Some a))
  ∧ (server_Project.Targets r = [] → Targets env s = (s, Returns (Ok []))).
Proof.
  intros Hp. split; [| split; [| split; [| split]]].
  - intros s' ts. unfold Targets. run. rewrite Hp. cbn.
    rewrite Targets_loop_loaded. cbn. split.
    + by intros (new & -> & Hl).
    + intros Hl. by exists ts.
  - intros pre ref rest ts s1 s2 e Hrefs Hpre Hload. unfold Targets. run.
    rewrite Hp. cbn. rewrite Hrefs.
    rewrite (Targets_loop_app env pre _ [] ts s s1 Hpre).
    cbn [Targets_loop]. run. by rewrite Hload.
  - intros s' out. unfold Targets. run. rewrite Hp. cbn.
    apply Targets_loop_keeps.
  - intros s' ts. unfold Targets. run. rewrite Hp. cbn. intros Hloop.
    destruct (Targets_loop_inv env _ [] ts s s' Hloop)
      as (Hkeep & new & -> & Hlen & Hreg).
    done.
  - intros Hrefs. unfold Targets. run. rewrite Hp. cbn. by rewrite Hrefs.
Qed.

Lemma ActiveTargets_loop_filter (env : Collaborators) (ts acc acts : list addr)
    (s s' : Store) :
  ActiveTargets_loop env ts acc s = (s', Returns (Ok acts)) →
  s' = s ∧ acts = acc ++ List.filter (is_active env (heap s)) ts.
Proof.
  revert acc. induction ts as [|a ts IH]; intros acc; cbn; run.
  - intros [= <- <-]. by rewrite app_nil_r.
  - unfold is_active at 1. destruct (heap s !! a) as [t|]; cbn; [| done].
    destruct (Target_State env t) as [[|]|e]; [| | done].
    + intros H. destruct (IH _ H) as [-> ->]. by rewrite <- app_assoc.
    + apply IH.
Qed.

(** [ActiveTargets] answers, in the order of [Targets], exactly the
    targets of [Targets] whose state is active, and leaves the store as
    [Targets] left it. *)
Theorem ActiveTargets_filters_Targets (env : Collaborators) (s s' : Store)
    (acts : list addr) :
  ActiveTargets env s = (s', Returns (Ok acts)) →
  ∃ ts, Targets env s = (s', Returns (Ok ts))
        ∧ acts = List.filter (is_active env (heap s')) ts.
Proof.
  unfold ActiveTargets. run.
  destruct (Targets env s) as [s1 [[ts|e]| |]]; try done.
  intros Hloop. destruct (ActiveTargets_loop_filter env ts [] acts s1 s' Hloop)
    as [-> ->].
  by exists ts.
Qed.

(** * More on closing and saving *)

Lemma Close_run (env : Collaborators) (s : Store) (r : server_Project.t) :
  project s = Some r →
  Forall (λ e, is_Some (heap s !! e.2)) (range_targets env (targets s)) →
  Close env s
  = (set_basis_projects
       (delete (server_Project.Name r) (basis_projects s))
       (add_log (close_events (range_targets env (targets s)) (closers s)) s),
     Returns (aggregate
                (target_failures env (heap s) (range_targets env (targets s))
                 ++ closer_failures (closers s)))).
Proof.
  intros Hp Hall.
  pose proof (close_targets_run env _ [] s Hall) as Hct.
  change (aggregate []) with (@None error) in Hct. cbn [app] in Hct.
  unfold Close, Name. run. rewrite Hct.
  change (closers (add_log _ s)) with (closers s).
  rewrite (run_closers_run (closers s) _ _). cbn. rewrite Hp. cbn.
  unfold close_events, set_basis_projects, add_log. cbn.
  by rewrite <- app_assoc.
Qed.

(** A cleanup action registered with [Closer] is run by [Close] after the
    targets are closed and after the cleanup actions registered before
    it, and its failure comes last in the error returned. *)
Theorem Closer_then_Close (env : Collaborators) (s : Store)
    (r : server_Project.t) (c : ProjectCloser) :
  project s = Some r →
  Forall (λ e, is_Some (heap s !! e.2)) (range_targets env (targets s)) →
  ∃ s1 s2,
    Closer c s = (s1, Returns tt)
    ∧ Close env s1
      = (s2, Returns (aggregate
                        (target_failures env (heap s)
                           (range_targets env (targets s))
                         ++ closer_failures (closers s)
                         ++ closer_failures [c])))
    ∧ log s2
      = log s ++ close_events (range_targets env (targets s)) (closers s)
        ++ [EvCloser (closer_id c)].
Proof.
  intros Hp Hall. eexists _, _. split; [reflexivity |].
  rewrite (Close_run env _ r) by done. cbn.
  unfold closer_failures, close_events. rewrite omap_app, map_app. cbn.
  split; [done |]. by rewrite <- !app_assoc.
Qed.


Lemma save_targets_run (env : Collaborators)
    (Target_Save : addr → Target.t → option error)
    (entries : list (string * addr)) (done : list error) (s : Store) :
  Forall (λ e, ∃ t, heap s !! e.2 = Some t ∧ is_Some (Target.target t)) entries →
  save_targets Target_Save entries (aggregate done) s
  = (s, Returns (aggregate (done ++ save_failures Target_Save (heap s) entries))).
Proof.
  revert done. induction entries as [|[k a] entries IH]; intros done Hall.
  - cbn. by rewrite app_nil_r.
  - apply Forall_cons in Hall as [(t & Ht & [r Hr]) Hall]. cbn in Ht.
    cbn [save_targets]. run. rewrite Ht. cbn. rewrite Hr. cbn.
    unfold save_failures. cbn [omap list_omap snd]. rewrite Ht. cbn.
    fold (save_failures Target_Save (heap s) entries).
    destruct (Target_Save a t) as [terr|].
    + rewrite aggregate_snoc, IH by done. by rewrite <- app_assoc.
    + by rewrite IH.
Qed.

(** [SaveFull] saves every loaded target whether or not some of the saves
    fail and then saves the project: when the Persistence Client answers
    the upsert of the project with a response, the record of the project
    becomes the record of the response and the error returned is the
    aggregate of the failures of the targets and of the project; when it
    answers an error and no response, [SaveFull] panics and the failures
    of the targets are lost. *)
Theorem SaveFull_saves_everything (env : Collaborators)
    (Target_Save : addr → Target.t → option error) (s : Store)
    (r : server_Project.t) :
  project s = Some r →
  Forall (λ e, ∃ t, heap s !! e.2 = Some t ∧ is_Some (Target.target t))
    (range_targets env (targets s)) →
  (∀ response perr,
     UpsertProject env (log s) (Some r) = (Some response, perr) →
     SaveFull env Target_Save s
     = (set_project response (add_log [EvUpsertProject (Some r)] s),
        Returns (aggregate
                   (save_failures Target_Save (heap s)
                      (range_targets env (targets s))
                    ++ option_list perr))))
  ∧ (∀ perr,
       UpsertProject env (log s) (Some r) = (None, Some perr) →
       SaveFull env Target_Save s
       = (add_log [EvUpsertProject (Some r)] s, Panics)).
Proof.
  intros Hp Hall.
  pose proof (save_targets_run env Target_Save _ [] s Hall) as Hst.
  change (aggregate []) with (@None error) in Hst. cbn [app] in Hst.
  split.
  - intros response perr Hup. unfold SaveFull, Save. run. rewrite Hp. cbn.
    rewrite Hst. cbn. rewrite Hp. cbn. rewrite Hup. cbn.
    destruct perr as [perr|]; cbn.
    + by rewrite aggregate_snoc.
    + by rewrite app_nil_r.
  - intros perr Hup. unfold SaveFull, Save. run. rewrite Hp. cbn.
    rewrite Hst. cbn. rewrite Hp. cbn. by rewrite Hup.
Qed.

(** A save that the Persistence Client answers without error replaces the
    record of the project by the record of the response, so that the
    target ids and names are then those of the response; the target map
    is not touched. *)
Theorem Save_then_TargetIds (env : Collaborators) (s : Store)
    (r r' : server_Project.t) :
  project s = Some r →
  UpsertProject env (log s) (Some r) = (Some (Some r'), None) →
  ∃ s', Save env s = (s', Returns None)
        ∧ project s' = Some r' ∧ targets s' = targets s
        ∧ TargetIds s'
          = (s', Returns (Ok (map Ref_Target.ResourceId
                                (server_Project.Targets r'))))
        ∧ TargetNames s'
          = (s', Returns (Ok (map Ref_Target.Name
                                (server_Project.Targets r')))).
Proof.
  intros Hp Hup. eexists. split.
  { unfold Save. run. rewrite Hp. cbn. rewrite Hup. reflexivity. }
  split; [done |]. split; [done |].
  split; [by apply TargetIds_refs | by apply TargetNames_refs].
Qed.

(** When every upsert of [InitTargets] succeeds, at least one is made and
    the Persistence Client finds the project, the target names and ids
    are afterwards those of the record found. *)
Theorem InitTargets_then_TargetNames (env : Collaborators) (s : Store)
    (r r' : server_Project.t) (c : Vagrantfile.t) :
  project s = Some r →
  server_Project.Configuration r = Some c →
  upserts_succeed env (ref_of r) (log s) (Vagrantfile.MachineConfigs c) →
  any_config (Vagrantfile.MachineConfigs c) = true →
  FindProject env (log s ++ upserts (ref_of r) (Vagrantfile.MachineConfigs c))
    (server_Project.ResourceId r) = Ok (Some r') →
  ∃ s', InitTargets env s = (s', Returns None)
        ∧ TargetNames s'
          = (s', Returns (Ok (map Ref_Target.Name (server_Project.Targets r'))))
        ∧ TargetIds s'
          = (s', Returns (Ok (map Ref_Target.ResourceId
                                (server_Project.Targets r')))).
Proof.
  intros Hp Hc Hok Hany Hfind. eexists. split.
  { unfold InitTargets. run. rewrite Hp. cbn. rewrite Hc.
    rewrite (upsert_loop_all env r _ s Hp Hok), Hany.
    rewrite (refreshProject_run env _ r) by done. cbn. rewrite Hfind.
    reflexivity. }
  split; [by apply TargetNames_refs | by apply TargetIds_refs].
Qed.

(** * Running a task *)

(** [Run] returns no error exactly when [InitTargets] returned none, the
    component of the task was found and the call of its command answered
    the exit code 0 without error.  A call that answers neither a result
    nor an error is a failure: a run error with exit code 0, no error and
    no status.  An error of [InitTargets] is returned as it is, whatever
    the component and the command are. *)
Theorem Run_succeeds_iff (env : Collaborators)
    (component : list Event → string → result nat)
    (callDynamicFunc :
       list Event → nat → list string → list string → option Z * option error)
    (status_FromError : error → option string) (task : Task.t) (s s' : Store) :
  (Run env component callDynamicFunc status_FromError task s = (s', Returns None)
   ↔ ∃ cmd,
       InitTargets env s = (s', Returns None)
       ∧ component (log s') (Task.Component_Name task) = Ok cmd
       ∧ callDynamicFunc (log s') cmd
           (strings.Split (Task.CommandName task) " ") (Task.CliArgs task)
         = (Some 0%Z, None))
  ∧ (∀ cmd,
       InitTargets env s = (s', Returns None) →
       component (log s') (Task.Component_Name task) = Ok cmd →
       callDynamicFunc (log s') cmd
         (strings.Split (Task.CommandName task) " ") (Task.CliArgs task)
       = (None, None) →
       Run env component callDynamicFunc status_FromError task s
       = (s', Returns (Some (Failed {| runError.err := None;
                                       runError.status := None;
                                       runError.exitCode := 0 |}))))
  ∧ (∀ err,
       InitTargets env s = (s', Returns (Some err)) →
       Run env component callDynamicFunc status_FromError task s
       = (s', Returns (Some (Passed err)))).
Proof.
  split; [split | split];
    [| | | intros err Hinit; unfold Run; run; by rewrite Hinit].
  - unfold Run. run.
    destruct (InitTargets env s) as [s1 [[e|]| |]]; try done.
    destruct (component (log s1) _) as [cmd|e] eqn:Hc; [| done].
    destruct (callDynamicFunc (log s1) cmd _ _) as [result err] eqn:Hcall.
    destruct err as [e|]; [done |].
    destruct result as [z|]; [| done].
    destruct (decide (z = 0%Z)) as [->|Hz].
    + intros [= <-]. by exists cmd.
    + cbn. by rewrite bool_decide_eq_true_2 by congruence.
  - intros (cmd & Hinit & Hc & Hcall). unfold Run. run.
    by rewrite Hinit, Hc, Hcall.
  - intros cmd Hinit Hc Hcall. unfold Run. run.
    by rewrite Hinit, Hc, Hcall.
Qed.

(** * More on the Factory *)

Section New_more.
Variable NewBasis : list FactoryEvent → list BasisOption → result Candidate.t.

(** After [New] registered a Basis, a call with its resolved name (given
    that the name is not empty) answers the same Basis with no
    construction, whatever [NewBasis] would answer; and a call without a
    name whose candidate resolves to that name answers the same Basis
    too, the registry being unchanged. *)
Theorem New_again_same_Basis
    (NewBasis2 : list FactoryEvent → list BasisOption → result Candidate.t)
    (f : Factory.t) (name : string) (opts opts2 : list nat) (c : Candidate.t) :
  Factory.m f = false → first_lookup_misses f name →
  NewBasis (Factory.trace f ++ [EvLock; EvSub name]) (basis_options name opts)
  = Ok c →
  Factory.registered f !! Candidate.name c = None →
  ∃ f1 b,
    Factory.New NewBasis name opts f = (f1, Returns (Ok b))
    ∧ Factory.bases f !! b = None
    ∧ Factory.registered f1 !! Candidate.name c = Some b
    ∧ (Candidate.name c ≠ "" →
       Factory.New NewBasis2 (Candidate.name c) opts2 f1
       = (add_trace [EvLock; EvUnlock] f1, Returns (Ok b)))
    ∧ (∀ c2,
         NewBasis2 (Factory.trace f1 ++ [EvLock; EvSub ""]) (basis_options "" opts2)
         = Ok c2 →
         Candidate.name c2 = Candidate.name c →
         ∃ f2, Factory.New NewBasis2 "" opts2 f1 = (f2, Returns (Ok b))
               ∧ Factory.registered f2 = Factory.registered f1).
Proof.
  intros Hm Hmiss Hnew Hreg.
  eexists _, _. split; [by apply New_registers |].
  split; [apply not_elem_of_dom, is_fresh |].
  split; [cbn; apply lookup_insert_eq |]. split.
  - intros Hname. apply New_hit; [done | done |]. cbn. apply lookup_insert_eq.
  - intros c2 Hnew2 Hname2. eexists. split.
    + apply (New_candidate_discarded NewBasis2 _ "" opts2 c2);
        [done | by left | done |].
      rewrite Hname2. cbn. apply lookup_insert_eq.
    + done.
Qed.

(** The registry only grows under [New], and two invariants are kept
    whatever the call answers: every entry of the registry is a Basis
    whose name is its key, and no Basis is registered under two names. *)
Theorem New_keeps_registry (f : Factory.t) (name : string) (opts : list nat) :
  Factory.m f = false → registry_well_named f → registry_injective f →
  (∀ n a, Factory.registered f !! n = Some a →
          Factory.registered (Factory.New NewBasis name opts f).1 !! n = Some a)
  ∧ registry_well_named (Factory.New NewBasis name opts f).1
  ∧ registry_injective (Factory.New NewBasis name opts f).1.
Proof.
  intros Hm Hwn Hinj.
  assert (Hfresh : ∀ n a, Factory.registered f !! n = Some a →
                          a ≠ fresh (dom (Factory.bases f))).
  { intros n a Hn Ha. destruct (Hwn n a Hn) as (b & Hb & _).
    apply (is_fresh (dom (Factory.bases f))). rewrite <- Ha.
    apply elem_of_dom. by eexists. }
  destruct (decide (first_lookup_misses f name)) as [Hmiss|Hhit].
  - destruct (NewBasis (Factory.trace f ++ [EvLock; EvSub name])
                (basis_options name opts)) as [c|err] eqn:Hnew.
    + destruct (Factory.registered f !! Candidate.name c) as [w|] eqn:Hreg.
      * rewrite (New_candidate_discarded NewBasis f name opts c w) by done.
        cbn. split; [done |]. split; [| done].
        intros n a Hn. cbn in Hn. destruct (Hwn n a Hn) as (b & Hb & Hname).
        exists b. split; [| done]. cbn. rewrite lookup_insert_ne; [done |].
        intros Hf. by apply (Hfresh n a).
      * rewrite (New_registers NewBasis f name opts c) by done. cbn.
        split; [| split].
        -- intros n a Hn. rewrite lookup_insert_ne; [done |].
           intros <-. by rewrite Hreg in Hn.
        -- intros n a. cbn. intros [[<- <-]|[Hne Hn]]%lookup_insert_Some.
           ++ exists (Basis.Closer (ClosePlugins (Sub name))
                        (Basis.Closer Deregister (Basis.of_candidate c))).
              split; [| done].
              rewrite lookup_alter_eq, lookup_alter_eq, lookup_insert_eq. done.
           ++ destruct (Hwn n a Hn) as (b & Hb & Hname). exists b.
              split; [| done].
              rewrite !lookup_alter_ne, lookup_insert_ne;
                try done; intros Hf; by apply (Hfresh n a).
        -- intros n1 n2 a. cbn.
           intros [[<- <-]|[Hne1 Hn1]]%lookup_insert_Some
                  [[<- Ha]|[Hne2 Hn2]]%lookup_insert_Some; try done.
           ++ exfalso. by apply (Hfresh n2 _ Hn2).
           ++ exfalso. apply (Hfresh n1 _ Hn1). done.
           ++ by apply (Hinj n1 n2 a).
    + rewrite (New_construction_fails NewBasis f name opts err) by done. done.
  - assert (Hname : name ≠ "") by (intros ->; apply Hhit; by left).
    destruct (Factory.registered f !! name) as [b|] eqn:Hreg;
      [| exfalso; apply Hhit; by right].
    rewrite (New_hit NewBasis f name opts b) by done. done.
Qed.

(** Closing the Basis that [New] registered undoes the registration: its
    own cleanup actions run first, then its name is taken out of the
    registry under the lock, then its child plugin manager is closed; the
    registry is as it was before the call of [New]. *)
Theorem New_then_Close_restores (f : Factory.t) (name : string)
    (opts : list nat) (c : Candidate.t) :
  Factory.m f = false → first_lookup_misses f name →
  NewBasis (Factory.trace f ++ [EvLock; EvSub name]) (basis_options name opts)
  = Ok c →
  Factory.registered f !! Candidate.name c = None →
  ∃ f1 b,
    Factory.New NewBasis name opts f = (f1, Returns (Ok b))
    ∧ Factory.registered (Factory.Basis_Close b f1).1 = Factory.registered f
    ∧ Factory.m (Factory.Basis_Close b f1).1 = false
    ∧ Factory.trace (Factory.Basis_Close b f1).1
      = Factory.trace f1 ++ candidate_close_events b c
        ++ [EvLock; EvUnlock; EvPluginsClose (Sub name)].
Proof.
  intros Hm Hmiss Hnew Hreg.
  eexists _, _. split; [by apply New_registers |].
  match goal with
  | |- context [Factory.Basis_Close ?b ?f1] =>
      destruct (Basis_Close_registered f1 b c (Sub name)) as (Hr & Hm' & Ht)
  end.
  - done.
  - cbn. by rewrite lookup_alter_eq, lookup_alter_eq, lookup_insert_eq.
  - split; [| split; [done | done]].
    rewrite Hr. cbn. by apply delete_insert_id.
Qed.

(** On a Factory just made, the first [New] never returns a Basis made
    before: it returns the error of the construction and registers
    nothing, or it registers the candidate, alone, under its resolved
    name, at an address that held no Basis. *)
Theorem NewFactory_first_New (bases : gmap addr Basis.t) (name : string)
    (opts : list nat) :
  match NewBasis [EvLock; EvSub name] (basis_options name opts) with
  | Err err =>
      (Factory.New NewBasis name opts (NewFactory bases)).2 = Returns (Err err)
      ∧ Factory.registered (Factory.New NewBasis name opts (NewFactory bases)).1
        = ∅
  | Ok c =>
      (Factory.New NewBasis name opts (NewFactory bases)).2
      = Returns (Ok (fresh (dom bases)))
      ∧ Factory.registered (Factory.New NewBasis name opts (NewFactory bases)).1
        = {[ Candidate.name c := fresh (dom bases) ]}
      ∧ bases !! fresh (dom bases) = None
  end.
Proof.
  assert (Hmiss : first_lookup_misses (NewFactory bases) name).
  { right. apply lookup_empty. }
  destruct (NewBasis [EvLock; EvSub name] (basis_options name opts))
    as [c|err] eqn:Hnew.
  - rewrite (New_registers NewBasis (NewFactory bases) name opts c);
      [| done | done | done | apply lookup_empty].
    cbn. split; [done |]. split; [done |]. apply not_elem_of_dom, is_fresh.
  - by rewrite (New_construction_fails NewBasis (NewFactory bases) name opts err).
Qed.

End New_more.

(** * Project options *)

Ltac lrun :=
  repeat (progress (unfold WithProjectRef, adopt_project, Loading.call, mbind,
                      M_bind, mret, M_ret, gets, modify, deref, panic;
                    cbn [fst snd])).

(** [WithProjectRef] makes no remote call and leaves the Project under
    construction as it is in two cases: without a Basis it returns an
    error; with the name of the ref already loaded in the Basis it
    returns no error, and the record of the Project is not set to the
    record of the loaded project. *)
Theorem WithProjectRef_no_remote_call (client : ProjectClient)
    (r : Ref_Project.t) (Path : string) (p : Loading.t) :
  (Loading.basis p = None →
   WithProjectRef client r Path p
   = (p, Returns (Some (ErrorString "basis must be set before loading project"))))
  ∧ (∀ projects ex,
       Loading.basis p = Some projects →
       projects !! Ref_Project.Name r = Some ex →
       WithProjectRef client r Path p = (p, Returns None)).
Proof.
  split.
  - intros Hb. lrun. by rewrite Hb.
  - intros projects ex Hb Hex. lrun. rewrite Hb. by rewrite Hex.
Qed.

Lemma adopt_project_inv (r : Ref_Project.t) (found : option server_Project.t)
    (p p' : Loading.t) (out : outcome (option error)) :
  adopt_project r found p = (p', out) →
  Loading.calls p' = Loading.calls p ∧ Loading.basis p' = Loading.basis p
  ∧ match out with
    | Returns None =>
        ∃ pr, found = Some pr ∧ Loading.project p' = Some pr
              ∧ Ref_Basis.ResourceId (server_Project.Basis pr)
                = Ref_Basis.ResourceId (Ref_Project.Basis r)
    | _ => Loading.project p' = Loading.project p
    end.
Proof.
  lrun. destruct found as [pr|]; cbn; [| by intros [= <- <-]].
  destruct (decide (_ ≠ _)) as [Hne|Heq]; cbn; intros [= <- <-]; [done |].
  split; [done |]. split; [done |]. exists pr.
  split; [done |]. split; [done |]. by apply dec_stable in Heq.
Qed.

(** When [WithProjectRef] goes to the Persistence Client and returns no
    error, the Project has a record, and the Basis of that record is the
    Basis of the ref; when it returns an error or panics, the record of
    the Project is the one it had. *)
Theorem WithProjectRef_basis_consistent (client : ProjectClient)
    (r : Ref_Project.t) (Path : string) (p p' : Loading.t)
    (projects : gmap string (option server_Project.t))
    (out : outcome (option error)) :
  Loading.basis p = Some projects →
  projects !! Ref_Project.Name r = None →
  WithProjectRef client r Path p = (p', out) →
  match out with
  | Returns None =>
      ∃ pr, Loading.project p' = Some pr
            ∧ Ref_Basis.ResourceId (server_Project.Basis pr)
              = Ref_Basis.ResourceId (Ref_Project.Basis r)
  | _ => Loading.project p' = Loading.project p
  end.
Proof.
  intros Hb Hex. unfold WithProjectRef. run. rewrite Hb, Hex.
  unfold Loading.call. run.
  destruct (FindProjectByRef client _ _ _ _) as [found|e].
  - intros H. apply adopt_project_inv in H as (_ & _ & H).
    destruct out as [[e|]| |]; try done.
    destruct H as (pr & _ & Hpr & Hid). by exists pr.
  - cbn. destruct (UpsertNewProject client _ _ _ _) as [upserted|e'].
    + intros H. apply adopt_project_inv in H as (_ & _ & H).
      destruct out as [[e1|]| |]; try done.
      destruct H as (pr & _ & Hpr & Hid). by exists pr.
    + by intros [= <- <-].
Qed.

(** [WithProjectRef] first looks the project up by the Basis, the name and
    the path of the ref; only when that fails does it upsert a project,
    and the path of the project it upserts is the name of the ref, not
    the path of the ref. *)
Theorem WithProjectRef_calls (client : ProjectClient)
    (r : Ref_Project.t) (Path : string) (p : Loading.t)
    (projects : gmap string (option server_Project.t)) :
  Loading.basis p = Some projects →
  projects !! Ref_Project.Name r = None →
  Loading.calls (WithProjectRef client r Path p).1
  = Loading.calls p
    ++ CallFindProject (Ref_Project.Basis r) (Ref_Project.Name r) Path
       :: match FindProjectByRef client (Loading.calls p) (Ref_Project.Basis r)
                  (Ref_Project.Name r) Path with
          | Ok _ => []
          | Err _ => [CallUpsertProject (Ref_Project.Name r) (Ref_Project.Name r)
                        (Ref_Project.Basis r)]
          end.
Proof.
  intros Hb Hex. unfold WithProjectRef. run. rewrite Hb, Hex.
  unfold Loading.call. run.
  destruct (FindProjectByRef client _ _ _ _) as [found|e].
  - destruct (adopt_project r found _) as [p' out] eqn:H.
    apply adopt_project_inv in H as (Hc & _). cbn. by rewrite Hc.
  - cbn. destruct (UpsertNewProject client _ _ _ _) as [upserted|e'].
    + destruct (adopt_project r upserted _) as [p' out] eqn:H.
      apply adopt_project_inv in H as (Hc & _). cbn. rewrite Hc. cbn.
      by rewrite <- app_assoc.
    + cbn. by rewrite <- app_assoc.
Qed.

(** * The test helper *)

Lemma projectTargets_loop_length
    (TestTarget : string → string → string → M Store (option addr * option error))
    (k i : nat) (acc ts : list (option addr)) (s s' : Store) :
  projectTargets_loop TestTarget k i acc s = (s', Returns ts) →
  ∃ new, ts = acc ++ new ∧ List.length new = k.
Proof.
  revert i acc s. induction k as [|k IH]; intros i acc s; cbn; run.
  - intros [= <- <-]. exists []. by rewrite app_nil_r.
  - destruct (TestTarget _ _ _ s) as [s1 [[tt e]| |]]; try done.
    intros H. destruct (IH _ _ _ H) as (new & -> & Hlen).
    exists (tt :: new). split; [by rewrite <- app_assoc | cbn; by rewrite Hlen].
Qed.

(** The slice that [projectTargets] returns for [numTargets] targets has
    twice that many entries, and the first [numTargets] of them are nil:
    the targets made are appended to a slice that already has its full
    length. *)
Theorem projectTargets_nil_prefix
    (TestTarget : string → string → string → M Store (option addr * option error))
    (numTargets : nat) (ts : list (option addr)) (s s' : Store) :
  projectTargets TestTarget numTargets s = (s', Returns ts) →
  List.length ts = 2 * numTargets
  ∧ take numTargets ts = replicate numTargets None.
Proof.
  unfold projectTargets. intros H.
  destruct (projectTargets_loop_length _ _ _ _ _ _ _ H) as (new & -> & Hlen).
  split.
  - rewrite length_app, length_replicate, Hlen. lia.
  - rewrite take_app_le by (by rewrite length_replicate).
    apply take_ge. by rewrite length_replicate.
Qed.

(** * The further properties at the sample inputs *)

Lemma DefaultProvider_forced_witness :
  DefaultProvider Sample2.default_virtualbox Sample.vmware_only
    Sample.two_providers Sample2.forced
  = Done (Ok "virtualbox").
Proof.
  apply (DefaultProvider_forced Sample2.default_virtualbox Sample.vmware_only
           Sample.two_providers Sample2.forced); done.
Defined.

Lemma DefaultProvider_answers_usable_witness :
  ∃ listed pp,
    plugin.ListPlugins Sample.vmware_only "provider" = Ok listed
    ∧ pp ∈ listed ∧ plugin.Name pp = "vmware"
    ∧ DefaultProviderOptions.IsExcluded Sample.check_usable "vmware" = false
    ∧ (DefaultProviderOptions.CheckUsable Sample.check_usable = true →
       plugin.GetPlugin Sample.vmware_only (plugin.Name pp) (plugin.Type_ pp)
       = Ok (plugin.Provider (Ok true))).
Proof.
  apply (DefaultProvider_answers_usable Sample.no_env Sample.vmware_only
           Sample.two_providers Sample.check_usable "vmware");
    reflexivity.
Defined.

Lemma DefaultProvider_fails_iff_none_usable_witness :
  DefaultProvider Sample.no_env Sample.vmware_only Sample.two_providers
    Sample2.unchecked
  = Done (Err (ErrorString "No default provider.")).
Proof.
  apply (proj1 (DefaultProvider_fails_iff_none_usable Sample.no_env
                  Sample.vmware_only Sample.two_providers Sample2.unchecked []
                  eq_refl eq_refl)).
  reflexivity.
Defined.

Lemma usableProviders_unchecked_witness :
  usableProviders Sample.vmware_only Sample2.unchecked = Done (Ok []).
Proof.
  apply (usableProviders_unchecked Sample.vmware_only Sample2.unchecked
           [{| plugin.Name := "vmware"; plugin.Type_ := "provider" |}]);
    reflexivity.
Defined.

Lemma LoadTarget_then_Target_witness :
  ∃ s' a t',
    LoadTarget Sample2.collaborators [Sample.with_record Sample.db]
      (Sample.store [] [])
    = (s', Returns (Ok a))
    ∧ heap (Sample.store [] []) !! a = None
    ∧ targets s' = <["id-2" := a]> (targets (Sample.store [] []))
    ∧ heap s' !! a = Some t'
    ∧ Target.target t' = Some Sample.db
    ∧ Target.closers t' = [SaveOnClose]
    ∧ ∀ provider, Target_ Sample2.collaborators "id-2" provider s'
                  = (s', Returns (Ok a)).
Proof.
  apply (LoadTarget_then_Target Sample2.collaborators (Sample.store [] [])
           [Sample.with_record Sample.db]
           (Target.with_target Sample.db new_shell) Sample.db).
  - split; reflexivity.
  - intros _. eexists. reflexivity.
  - reflexivity.
Defined.

Lemma LoadTarget_option_errors_witness :
  LoadTarget Sample2.collaborators
    [Sample2.resolve (Sample2.ref Sample.web);
     WithTargetRef (Sample.collaborators true true) (Sample2.ref Sample.db);
     WithTargetRef (Sample.collaborators true true) (Sample2.ref Sample.web)]
    (Sample.store [] [])
  = (Sample.store [] [],
     Returns (Err (MultiError [ErrorString "target not found";
                               ErrorString "target not found"]))).
Proof.
  apply (LoadTarget_option_errors Sample2.collaborators (Sample.store [] [])
           [Sample2.resolve (Sample2.ref Sample.web);
            WithTargetRef (Sample.collaborators true true) (Sample2.ref Sample.db);
            WithTargetRef (Sample.collaborators true true) (Sample2.ref Sample.web)]).
  discriminate.
Defined.

Lemma targets_kept_witness :
  targets_well_keyed
    (LoadTarget Sample2.collaborators [Sample.with_record Sample.db]
       (Sample.store [] [])).1
  ∧ targets (LoadTarget Sample2.collaborators [Sample.with_record Sample.db]
               (Sample.store [] [])).1 !! "id-1" = Some 1.
Proof.
  destruct (proj1 (targets_kept Sample2.collaborators (Sample.store [] []))
              [Sample.with_record Sample.db] _ _ (surjective_pairing _))
    as [Hkeep Hwf].
  split.
  - apply Hwf. intros k a Hk. cbn in Hk.
    apply lookup_singleton_Some in Hk as [<- <-].
    exists (Sample.loaded Sample.web), Sample.web. by split.
  - by apply Hkeep.
Defined.

Lemma Target_scan_answers_by_name_witness :
  Target_ Sample2.collaborators "web" "virtualbox" (Sample.store [] [])
  = (overwrite_provider 1 "virtualbox" (Sample.loaded Sample.web) Sample.web
       (Sample.store [] []),
     Returns (Ok 1))
  ∧ ∃ t r, heap (Sample.store [] []) !! 1 = Some t ∧ Target.target t = Some r
           ∧ server_Target.Name r = "web".
Proof.
  apply (Target_scan_answers_by_name Sample2.collaborators "web" "virtualbox"
           (Sample.store [] [])).
  - intros k a Hk. cbn in Hk. apply lookup_singleton_Some in Hk as [<- <-].
    exists (Sample.loaded Sample.web), Sample.web. by split.
  - reflexivity.
  - reflexivity.
  - cbn [Sample2.collaborators range_targets Sample.store targets].
    rewrite map_to_list_singleton. reflexivity.
Defined.

Lemma Target_falls_back_to_LoadTarget_witness :
  ∃ e, Target_ (Sample.collaborators true true) "nope" "" (Sample.store [] [])
       = (Sample.store [] [], Returns (Err e)).
Proof.
  apply (proj2 (Target_falls_back_to_LoadTarget (Sample.collaborators true true)
                  "nope" "" (Sample.store [] []) (Sample.record [] [])
                  eq_refl eq_refl
                  ltac:(cbn [Sample.collaborators range_targets Sample.store
                             targets];
                        rewrite map_to_list_singleton;
                        apply Forall_singleton;
                        exists (Sample.loaded Sample.web), Sample.web;
                        by repeat split))).
  done.
Defined.

Lemma Targets_one_per_reference_witness :
  (∃ s', Targets Sample2.collaborators Sample2.store = (s', Returns (Ok [1; 2]))
         ∧ (∀ a, a ∈ [1; 2] → ∃ k, targets s' !! k = Some a)
         ∧ log s' = [EvDataDir "web"; EvDataDir "db"])
  ∧ (∃ e, Targets Sample2.collaborators
            (Sample3.two_loaded [Sample2.ref Sample.web; Sample3.ghost;
                                 Sample2.ref Sample.db])
          = (add_log [EvDataDir "web"]
               (Sample3.two_loaded [Sample2.ref Sample.web; Sample3.ghost;
                                    Sample2.ref Sample.db]),
             Returns (Err e)))
  ∧ targets (Targets Sample2.collaborators
               (Sample3.two_loaded [Sample2.ref Sample.web; Sample3.ghost;
                                    Sample2.ref Sample.db])).1 !! "id-2"
    = Some 2.
Proof.
  split; [| split].
  - assert (H : loaded_in_order Sample2.collaborators
                  [Sample2.ref Sample.web; Sample2.ref Sample.db]
                  Sample2.store [1; 2]
                  (add_log [EvDataDir "web"; EvDataDir "db"] Sample2.store)).
    { apply (loaded_next _ _ _ _ (add_log [EvDataDir "web"] Sample2.store));
        [by vm_compute |].
      apply (loaded_next _ _ _ _
               (add_log [EvDataDir "web"; EvDataDir "db"] Sample2.store));
        [by vm_compute | constructor]. }
    apply (proj1 (Targets_one_per_reference Sample2.collaborators Sample2.store
                    _ eq_refl)) in H.
    eexists. split; [exact H |].
    destruct (proj1 (proj2 (proj2 (proj2
                (Targets_one_per_reference Sample2.collaborators Sample2.store
                   _ eq_refl)))) _ _ H) as (_ & Hreg).
    split; [exact Hreg | reflexivity].
  - eexists.
    eapply (proj1 (proj2 (Targets_one_per_reference Sample2.collaborators
                            (Sample3.two_loaded _) _ eq_refl))
              [Sample2.ref Sample.web] Sample3.ghost [Sample2.ref Sample.db] [1]).
    + reflexivity.
    + eapply loaded_next; [by vm_compute | constructor].
    + by vm_compute.
  - apply (proj1 (proj2 (proj2 (Targets_one_per_reference Sample2.collaborators
                                  (Sample3.two_loaded _) _ eq_refl)))
             _ _ (surjective_pairing _)).
    by vm_compute.
Defined.

Lemma ActiveTargets_filters_Targets_witness :
  ∃ s' ts,
    ActiveTargets Sample2.collaborators Sample2.store = (s', Returns (Ok [2]))
    ∧ Targets Sample2.collaborators Sample2.store = (s', Returns (Ok ts))
    ∧ [2] = List.filter (is_active Sample2.collaborators (heap s')) ts.
Proof.
  assert (H : ActiveTargets Sample2.collaborators Sample2.store
              = (add_log [EvDataDir "web"; EvDataDir "db"] Sample2.store,
                 Returns (Ok [2]))) by (by vm_compute).
  destruct (ActiveTargets_filters_Targets Sample2.collaborators _ _ _ H)
    as (ts & Hts & Hacts).
  by eexists _, ts.
Defined.

Lemma Closer_then_Close_witness :
  ∃ s1 s2,
    Closer {| closer_id := 9; closer_err := None |} (Sample.store [] [])
    = (s1, Returns tt)
    ∧ (Close (Sample.collaborators true true) s1).1 = s2
    ∧ log s2 = [EvTargetClose 1; EvCloser 7; EvCloser 9].
Proof.
  destruct (Closer_then_Close (Sample.collaborators true true)
              (Sample.store [] []) (Sample.record [] [])
              {| closer_id := 9; closer_err := None |} eq_refl)
    as (s1 & s2 & Hc & Hclose & Hlog).
  - cbn [Sample.collaborators range_targets Sample.store targets].
    rewrite map_to_list_singleton. apply Forall_singleton. by eexists.
  - exists s1, s2. split; [exact Hc |]. split; [by rewrite Hclose |].
    rewrite Hlog.
    cbn [Sample.collaborators range_targets Sample.store targets closers log].
    by rewrite map_to_list_singleton.
Defined.


Lemma SaveFull_saves_everything_witness :
  SaveFull Sample2.collaborators Sample2.Target_Save (Sample.store [] [])
  = (set_project (Some Sample2.served)
       (add_log [EvUpsertProject (Some (Sample.record [] []))]
          (Sample.store [] [])),
     Returns (Some (MultiError [ErrorString "save failed"]))).
Proof.
  rewrite (proj1 (SaveFull_saves_everything Sample2.collaborators
                    Sample2.Target_Save (Sample.store [] [])
                    (Sample.record [] []) eq_refl
                    ltac:(cbn [Sample2.collaborators range_targets Sample.store
                               targets];
                          rewrite map_to_list_singleton;
                          apply Forall_singleton;
                          exists (Sample.loaded Sample.web); by split))
             (Some Sample2.served) None eq_refl).
  cbn [Sample2.collaborators range_targets Sample.store targets heap].
  rewrite map_to_list_singleton. reflexivity.
Defined.

Lemma Save_then_TargetIds_witness :
  ∃ s', Save Sample2.collaborators (Sample.store [] []) = (s', Returns None)
        ∧ TargetIds s' = (s', Returns (Ok ["id-1"; "id-2"])).
Proof.
  destruct (Save_then_TargetIds Sample2.collaborators (Sample.store [] [])
              (Sample.record [] []) Sample2.served eq_refl eq_refl)
    as (s' & Hsave & _ & _ & Hids & _).
  exists s'. by split.
Defined.

Lemma InitTargets_then_TargetNames_witness :
  ∃ s', InitTargets Sample2.collaborators Sample2.configured = (s', Returns None)
        ∧ TargetNames s' = (s', Returns (Ok ["web"; "db"])).
Proof.
  destruct (InitTargets_then_TargetNames Sample2.collaborators
              Sample2.configured _ Sample2.served _ eq_refl eq_refl)
    as (s' & Hinit & Hnames & _).
  - intros pre t rest _. reflexivity.
  - reflexivity.
  - reflexivity.
  - exists s'. by split.
Defined.

Lemma New_again_same_Basis_witness :
  ∃ f1 b,
    Factory.New Sample.NewBasis_dev "dev" [] Sample.empty_factory
    = (f1, Returns (Ok b))
    ∧ Factory.New Sample.NewBasis_fails "dev" [4] f1
      = (add_trace [EvLock; EvUnlock] f1, Returns (Ok b)).
Proof.
  destruct (New_again_same_Basis Sample.NewBasis_dev Sample.NewBasis_fails
              Sample.empty_factory "dev" [] [4]
              {| Candidate.name := "dev"; Candidate.closers := [(3, None)] |}
              eq_refl (or_intror (lookup_empty _)) eq_refl (lookup_empty _))
    as (f1 & b & Hnew & _ & _ & Hagain & _).
  exists f1, b. split; [exact Hnew |]. by apply Hagain.
Defined.

Lemma New_keeps_registry_witness :
  registry_well_named
    (Factory.New Sample.NewBasis_dev "" [] Sample.dev_factory).1
  ∧ registry_injective
      (Factory.New Sample.NewBasis_dev "" [] Sample.dev_factory).1.
Proof.
  apply (New_keeps_registry Sample.NewBasis_dev Sample.dev_factory "" []
           eq_refl).
  - intros n a Hn. cbn in Hn. apply lookup_singleton_Some in Hn as [<- <-].
    eexists. split; [apply lookup_singleton_eq | done].
  - intros n1 n2 a H1 H2. cbn in H1, H2.
    apply lookup_singleton_Some in H1 as [<- _].
    by apply lookup_singleton_Some in H2 as [<- _].
Defined.

Lemma New_then_Close_restores_witness :
  ∃ f1 b,
    Factory.New Sample.NewBasis_dev "dev" [] Sample.empty_factory
    = (f1, Returns (Ok b))
    ∧ Factory.registered (Factory.Basis_Close b f1).1 = ∅
    ∧ Factory.trace (Factory.Basis_Close b f1).1
      = Factory.trace f1
        ++ [EvBasisClose b; EvBasisCloser 3; EvLock; EvUnlock;
            EvPluginsClose (Sub "dev")].
Proof.
  destruct (New_then_Close_restores Sample.NewBasis_dev Sample.empty_factory
              "dev" []
              {| Candidate.name := "dev"; Candidate.closers := [(3, None)] |}
              eq_refl (or_intror (lookup_empty _)) eq_refl (lookup_empty _))
    as (f1 & b & Hnew & Hreg & _ & Htrace).
  by exists f1, b.
Defined.

Lemma WithProjectRef_basis_consistent_witness :
  ∃ pr,
    Loading.project
      (WithProjectRef Sample2.client (Sample2.project_ref "demo") "/demo"
         Sample2.loading).1 = Some pr
    ∧ Ref_Basis.ResourceId (server_Project.Basis pr) = "basis-1".
Proof.
  apply (WithProjectRef_basis_consistent Sample2.client
           (Sample2.project_ref "demo") "/demo" Sample2.loading _ ∅
           (Returns None) eq_refl (lookup_empty _)).
  reflexivity.
Defined.

Lemma WithProjectRef_calls_witness :
  Loading.calls
    (WithProjectRef Sample2.client (Sample2.project_ref "other") "/elsewhere"
       Sample2.loading).1
  = [CallFindProject (Ref_Project.Basis (Sample2.project_ref "other"))
       "other" "/elsewhere";
     CallUpsertProject "other" "other"
       (Ref_Project.Basis (Sample2.project_ref "other"))].
Proof.
  apply (WithProjectRef_calls Sample2.client (Sample2.project_ref "other")
           "/elsewhere" Sample2.loading ∅ eq_refl (lookup_empty _)).
Defined.

Lemma projectTargets_nil_prefix_witness :
  List.length (replicate 6 (@None addr)) = 2 * 3
  ∧ take 3 (replicate 6 (@None addr)) = replicate 3 None.
Proof.
  apply (projectTargets_nil_prefix Sample2.TestTarget_fails 3 _
           (Sample.store [] []) (Sample.store [] [])).
  reflexivity.
Defined.

Lemma Target_name_match_sets_provider_witness :
  (server_Target.Provider
     <$> (heap (Target_ Sample2.collaborators "web" "virtualbox"
                  (Sample.store [] [])).1 !! (1 : addr) ≫= Target.target))
  = Some "virtualbox"
  ∧ (server_Target.Provider
       <$> (heap (Sample.store [] []) !! (1 : addr) ≫= Target.target))
    = Some "".
Proof.
  destruct (Target_name_match_sets_provider Sample2.collaborators "web"
              "virtualbox" (Sample.store [] []) [] [] "id-1" 1
              (Sample.loaded Sample.web) Sample.web)
    as (s' & t' & r' & Hrun & Ht' & Hr' & Hprov & _).
  - reflexivity.
  - cbn [Sample2.collaborators range_targets Sample.store targets].
    by rewrite map_to_list_singleton.
  - constructor.
  - reflexivity.
  - reflexivity.
  - reflexivity.
  - reflexivity.
  - discriminate.
  - rewrite Hrun. cbn [fst]. rewrite Ht'. cbn. rewrite Hr'. cbn.
    rewrite Hprov. split; [reflexivity | vm_compute; reflexivity].
Defined.
